(** * Red Ball Game: camera, platforms, avatar physics and session state

    A shallow embedding of [src/main.py].

    Number model.  Python floats are idealised as real numbers ([R]);
    Python ints that stay ints (lives, timers, level indices, scores,
    rectangle coordinates, level-table geometry) are [Z].  [int(x)] and the
    float-to-int conversion done by the [pygame.Rect] constructor truncate
    toward zero ([trunc]); a float assigned to [rect.x] or [rect.y] is
    rounded to the nearest integer ([round_half_away]).  The two values
    drawn by [random.uniform] inside
    [Camera.update] are inputs of the model.  Drawing code has no effect on
    the state that is modelled and is left out. *)

From Stdlib Require Import Reals.Reals ZArith.ZArith Lists.List Strings.String.
From Stdlib Require Import micromega.Lra micromega.Lia Bool.Bool.
Import ListNotations.

Open Scope R_scope.

(** ** Numbers *)

Definition Rleb (a b : R) : bool := if Rle_dec a b then true else false.
Definition Rltb (a b : R) : bool := if Rlt_dec a b then true else false.
Definition Reqb (a b : R) : bool := if Req_dec_T a b then true else false.

(** [int(x)] on a float: truncation toward zero. *)
Definition trunc (r : R) : Z :=
  if Rle_dec 0 r then Int_part r else (- Int_part (- r))%Z.

(** The integer that pygame stores when a float is assigned to [rect.x] or
    [rect.y]: the nearest one, halves away from zero (85.75 is stored as
    86), unlike the truncation done by the [Rect] constructor. *)
Definition round_half_away (r : R) : Z :=
  if Rle_dec 0 r then Int_part (r + 0.5) else (- Int_part (- r + 0.5))%Z.

(** Python's [min(a, b, c, d)] on numbers. *)
Definition min4 (a b c d : R) : R := Rmin (Rmin (Rmin a b) c) d.

(** ** MatrixMath *)

Module MatrixMath.

Definition Vec3 : Type := (R * R * R)%type.
Definition Matrix : Type := (Vec3 * Vec3 * Vec3)%type.
Definition Point : Type := (R * R)%type.

Definition create_translation_matrix (dx dy : R) : Matrix :=
  ((1, 0, dx),
   (0, 1, dy),
   (0, 0, 1)).

Definition create_scale_matrix (sx sy : R) : Matrix :=
  ((sx, 0, 0),
   (0, sy, 0),
   (0, 0, 1)).

Definition create_rotation_matrix (angle : R) : Matrix :=
  let cos_a := cos angle in
  let sin_a := sin angle in
  ((cos_a, - sin_a, 0),
   (sin_a, cos_a, 0),
   (0, 0, 1)).

(** [np.dot] of a row with a column. *)
Definition row_dot (r v : Vec3) : R :=
  let '(a, b, c) := r in
  let '(x, y, z) := v in
  a * x + b * y + c * z.

(** [np.dot(matrix, vector)]. *)
Definition dot_vec (m : Matrix) (v : Vec3) : Vec3 :=
  let '(r0, r1, r2) := m in
  (row_dot r0 v, row_dot r1 v, row_dot r2 v).

Definition col (m : Matrix) (j : nat) : Vec3 :=
  let '((a0, a1, a2), (b0, b1, b2), (c0, c1, c2)) := m in
  match j with
  | O => (a0, b0, c0)
  | S O => (a1, b1, c1)
  | _ => (a2, b2, c2)
  end.

(** [np.dot(a, b)] on two matrices. *)
Definition dot (a b : Matrix) : Matrix :=
  let '(r0, r1, r2) := a in
  let row r := (row_dot r (col b 0), row_dot r (col b 1), row_dot r (col b 2)) in
  (row r0, row r1, row r2).

Definition apply_transformation (matrix : Matrix) (point : Point) : Point :=
  let homogeneous_point := (fst point, snd point, 1) in
  let '(t0, t1, _) := dot_vec matrix homogeneous_point in
  (t0, t1).

(** [combine_matrices(m, *ms)]: the product taken left to right. *)
Definition combine_matrices (m : Matrix) (ms : list Matrix) : Matrix :=
  fold_left dot ms m.

Definition lerp (start end_ t : R) : R := start + t * (end_ - start).

Definition vec_lerp (a b : Vec3) (t : R) : Vec3 :=
  let '(a0, a1, a2) := a in
  let '(b0, b1, b2) := b in
  (lerp a0 b0 t, lerp a1 b1 t, lerp a2 b2 t).

Definition lerp_matrix (matrix_a matrix_b : Matrix) (t : R) : Matrix :=
  let '(a0, a1, a2) := matrix_a in
  let '(b0, b1, b2) := matrix_b in
  (vec_lerp a0 b0 t, vec_lerp a1 b1 t, vec_lerp a2 b2 t).

Definition create_view_matrix (camera_x camera_y zoom : R) : Matrix :=
  let translation := create_translation_matrix (- camera_x) (- camera_y) in
  let scaling := create_scale_matrix zoom zoom in
  combine_matrices scaling [translation].

End MatrixMath.

(** ** Camera *)

Module Camera.
Import MatrixMath.

Record t : Type := mk {
  screen_width : Z;
  screen_height : Z;
  position : Point;
  target_position : Point;
  zoom : R;
  target_zoom : R;
  shake_intensity : R;
  shake_timer : Z;
  position_lerp_speed : R;
  zoom_lerp_speed : R;
  min_x : Z;
  max_x : Z;
  view_matrix : Matrix;
  previous_matrix : Matrix
}.

Definition init (screen_width screen_height : Z) : t :=
  let vm := create_view_matrix 0 0 1 in
  {| screen_width := screen_width;
     screen_height := screen_height;
     position := (0, 0);
     target_position := (0, 0);
     zoom := 1;
     target_zoom := 1;
     shake_intensity := 0;
     shake_timer := 0;
     position_lerp_speed := 0.08;
     zoom_lerp_speed := 0.05;
     min_x := 0;
     max_x := 2000;
     view_matrix := vm;
     previous_matrix := vm |}.

Definition set_target (self : t) (target_x target_y : R) : t :=
  let tx := target_x - IZR (screen_width self) / 2 in
  let ty := target_y - IZR (screen_height self) / 2 in
  let tx := Rmax (IZR (min_x self)) (Rmin tx (IZR (max_x self))) in
  let ty := Rmax (-100) (Rmin ty 100) in
  {| screen_width := screen_width self;
     screen_height := screen_height self;
     position := position self;
     target_position := (tx, ty);
     zoom := zoom self;
     target_zoom := target_zoom self;
     shake_intensity := shake_intensity self;
     shake_timer := shake_timer self;
     position_lerp_speed := position_lerp_speed self;
     zoom_lerp_speed := zoom_lerp_speed self;
     min_x := min_x self;
     max_x := max_x self;
     view_matrix := view_matrix self;
     previous_matrix := previous_matrix self |}.

Definition set_zoom_target (self : t) (z : R) : t :=
  {| screen_width := screen_width self;
     screen_height := screen_height self;
     position := position self;
     target_position := target_position self;
     zoom := zoom self;
     target_zoom := Rmax 0.5 (Rmin z 2.0);
     shake_intensity := shake_intensity self;
     shake_timer := shake_timer self;
     position_lerp_speed := position_lerp_speed self;
     zoom_lerp_speed := zoom_lerp_speed self;
     min_x := min_x self;
     max_x := max_x self;
     view_matrix := view_matrix self;
     previous_matrix := previous_matrix self |}.

Definition add_screen_shake (self : t) (intensity : R) (duration : Z) : t :=
  {| screen_width := screen_width self;
     screen_height := screen_height self;
     position := position self;
     target_position := target_position self;
     zoom := zoom self;
     target_zoom := target_zoom self;
     shake_intensity := intensity;
     shake_timer := duration;
     position_lerp_speed := position_lerp_speed self;
     zoom_lerp_speed := zoom_lerp_speed self;
     min_x := min_x self;
     max_x := max_x self;
     view_matrix := view_matrix self;
     previous_matrix := previous_matrix self |}.

(** [random.uniform(a, b)] is [a + (b - a) * random()]; [u] is the value
    returned by [random()]. *)
Definition uniform (a b u : R) : R := a + (b - a) * u.

(** The shake offset that [update] adds to the position when it rebuilds
    the view matrix; [u1] and [u2] are the two random draws. *)
Definition shake_offset (self : t) (u1 u2 : R) : Point :=
  if (0 <? shake_timer self)%Z
  then (uniform (- shake_intensity self) (shake_intensity self) u1,
        uniform (- shake_intensity self) (shake_intensity self) u2)
  else (0, 0).

Definition update (self : t) (u1 u2 : R) : t :=
  let previous := view_matrix self in
  let px := lerp (fst (position self)) (fst (target_position self))
                 (position_lerp_speed self) in
  let py := lerp (snd (position self)) (snd (target_position self))
                 (position_lerp_speed self) in
  let z := lerp (zoom self) (target_zoom self) (zoom_lerp_speed self) in
  let '(shake_offset_x, shake_offset_y) := shake_offset self u1 u2 in
  let timer :=
    if (0 <? shake_timer self)%Z then (shake_timer self - 1)%Z
    else shake_timer self in
  let intensity :=
    if (0 <? shake_timer self)%Z
    then (if (timer <=? 0)%Z then 0 else shake_intensity self)
    else shake_intensity self in
  let final_x := px + shake_offset_x in
  let final_y := py + shake_offset_y in
  {| screen_width := screen_width self;
     screen_height := screen_height self;
     position := (px, py);
     target_position := target_position self;
     zoom := z;
     target_zoom := target_zoom self;
     shake_intensity := intensity;
     shake_timer := timer;
     position_lerp_speed := position_lerp_speed self;
     zoom_lerp_speed := zoom_lerp_speed self;
     min_x := min_x self;
     max_x := max_x self;
     view_matrix := create_view_matrix final_x final_y z;
     previous_matrix := previous |}.

Definition world_to_screen (self : t) (world_pos : Point) : Point :=
  apply_transformation (view_matrix self) world_pos.

Definition screen_to_world (self : t) (screen_pos : Point) : Point :=
  let inv_translation :=
    create_translation_matrix (fst (position self)) (snd (position self)) in
  let inv_scaling := create_scale_matrix (1 / zoom self) (1 / zoom self) in
  let inverse_view := combine_matrices inv_translation [inv_scaling] in
  apply_transformation inverse_view screen_pos.

Definition get_interpolated_matrix (self : t) (alpha : R) : Matrix :=
  lerp_matrix (previous_matrix self) (view_matrix self) alpha.

(** The calls the rest of the program makes on a camera. *)
Inductive op : Type :=
| SetTarget (target_x target_y : R)
| SetZoomTarget (z : R)
| AddScreenShake (intensity : R) (duration : Z)
| Update (u1 u2 : R).

Definition exec (self : t) (o : op) : t :=
  match o with
  | SetTarget x y => set_target self x y
  | SetZoomTarget z => set_zoom_target self z
  | AddScreenShake i d => add_screen_shake self i d
  | Update u1 u2 => update self u1 u2
  end.

Definition run (self : t) (ops : list op) : t := fold_left exec ops self.

End Camera.

(** ** pygame.Rect

    The rectangle type of the pygame library, as far as the program uses
    it: four integer fields, float arguments truncated toward zero, the
    derived edges, and [colliderect]. *)

Module Rect.

Record t : Type := mk { x : Z; y : Z; w : Z; h : Z }.

(** [pygame.Rect(x, y, w, h)] called on floats. *)
Definition of_floats (fx fy fw fh : R) : t :=
  mk (trunc fx) (trunc fy) (trunc fw) (trunc fh).

Definition left (r : t) : Z := x r.
Definition top (r : t) : Z := y r.
Definition right (r : t) : Z := (x r + w r)%Z.
Definition bottom (r : t) : Z := (y r + h r)%Z.

(** [rect.x = int(fx); rect.y = int(fy)], as [MovingPlatform.update] does:
    [int] truncates and the integer is stored as it is. *)
Definition move_to (r : t) (fx fy : R) : t :=
  mk (trunc fx) (trunc fy) (w r) (h r).

(** [rect.x = fx; rect.y = fy] with floats on the right, as
    [Ball.handle_platform_collision] does: the assignment rounds. *)
Definition assign (r : t) (fx fy : R) : t :=
  mk (round_half_away fx) (round_half_away fy) (w r) (h r).

Definition colliderect (a b : t) : bool :=
  if ((w a =? 0) || (h a =? 0) || (w b =? 0) || (h b =? 0))%Z then false
  else
    ((Z.min (x a) (x a + w a) <? Z.max (x b) (x b + w b)) &&
     (Z.min (y a) (y a + h a) <? Z.max (y b) (y b + h b)) &&
     (Z.min (x b) (x b + w b) <? Z.max (x a) (x a + w a)) &&
     (Z.min (y b) (y b + h b) <? Z.max (y a) (y a + h a)))%Z.

End Rect.

(** ** Platforms *)

Module Platform.

Record t : Type := mk {
  x : Z;
  y : Z;
  width : Z;
  height : Z;
  rect : Rect.t
}.

Definition init (x y width height : Z) : t :=
  mk x y width height (Rect.mk x y width height).

Definition update (self : t) : t := self.

End Platform.

Module MovingPlatform.
Import MatrixMath.

Record t : Type := mk {
  x : R;
  y : R;
  width : Z;
  height : Z;
  rect : Rect.t;
  original_pos : Z * Z;
  move_type : string;
  speed : R;
  distance : Z;
  time : R;
  velocity : Point;
  center_x : Z;
  center_y : Z;
  radius : Z
}.

Definition init (x y width height : Z) (move_type : string) (speed : R)
    (distance : Z) : t :=
  {| x := IZR x;
     y := IZR y;
     width := width;
     height := height;
     rect := Rect.mk x y width height;
     original_pos := (x, y);
     move_type := move_type;
     speed := speed;
     distance := distance;
     time := 0;
     velocity := (0, 0);
     center_x := (x + width / 2)%Z;
     center_y := (y + height / 2)%Z;
     radius := (distance / 2)%Z |}.

(** The [(new_x, new_y)] that [update] computes once [self.time] has been
    advanced to [t]; [None] when [move_type] is none of the three kinds
    (the source then reads [new_x] unbound and raises). *)
Definition new_position (self : t) (t : R) : option Point :=
  if (move_type self =? "horizontal")%string then
    let offset := sin (t * speed self) * IZR (distance self) in
    Some (IZR (fst (original_pos self)) + offset,
          IZR (snd (original_pos self)))
  else if (move_type self =? "vertical")%string then
    let offset := sin (t * speed self) * IZR (distance self) in
    Some (IZR (fst (original_pos self)),
          IZR (snd (original_pos self)) + offset)
  else if (move_type self =? "circular")%string then
    let angle := t * speed self in
    let rotation_matrix := create_rotation_matrix angle in
    let relative_point := (IZR (radius self), 0) in
    let rotated_point := apply_transformation rotation_matrix relative_point in
    Some (IZR (center_x self) + fst rotated_point - IZR (width self / 2),
          IZR (center_y self) + snd rotated_point - IZR (height self / 2))
  else None.

Definition update (self : t) : option t :=
  let time' := time self + 0.02 in
  match new_position self time' with
  | None => None
  | Some (new_x, new_y) =>
      let velocity' := (new_x - x self, new_y - y self) in
      let translation_matrix :=
        create_translation_matrix (new_x - x self) (new_y - y self) in
      let transformed_pos :=
        apply_transformation translation_matrix (x self, y self) in
      let x' := fst transformed_pos in
      let y' := snd transformed_pos in
      Some {| x := x';
              y := y';
              width := width self;
              height := height self;
              rect := Rect.move_to (rect self) x' y';
              original_pos := original_pos self;
              move_type := move_type self;
              speed := speed self;
              distance := distance self;
              time := time';
              velocity := velocity';
              center_x := center_x self;
              center_y := center_y self;
              radius := radius self |}
  end.

(** The point that the circular motion places on the orbit: the position
    plus the half extent [width // 2], [height // 2] that [update]
    subtracts. *)
Definition center_point (p : Point) (self : t) : Point :=
  (fst p + IZR (width self / 2), snd p + IZR (height self / 2)).

End MovingPlatform.

(** A member of [all_platforms]: [isinstance(platform, MovingPlatform)]
    is the case analysis on this type. *)
Inductive AnyPlatform : Type :=
| Static (p : Platform.t)
| Moving (m : MovingPlatform.t).

Definition platform_rect (p : AnyPlatform) : Rect.t :=
  match p with
  | Static s => Platform.rect s
  | Moving m => MovingPlatform.rect m
  end.

(** ** Ball *)

Module Ball.
Import MatrixMath.

Record t : Type := mk {
  original_pos : Point;
  pos : Point;
  velocity : Point;
  base_radius : R;
  radius : R;
  on_ground : bool;
  scale_factor : R;
  scale_timer : Z;
  rotation : R;
  lives : Z;
  gravity : R;
  jump_force : R;
  move_speed : R;
  friction : R
}.

Definition init (x y : R) : t :=
  {| original_pos := (x, y);
     pos := (x, y);
     velocity := (0, 0);
     base_radius := 15;
     radius := 15;
     on_ground := false;
     scale_factor := 1.0;
     scale_timer := 0;
     rotation := 0;
     lives := 2;
     gravity := 0.5;
     jump_force := -12;
     move_speed := 5;
     friction := 0.8 |}.

(** Field assignments. *)
Definition set_pos (self : t) (p : Point) : t :=
  mk (original_pos self) p (velocity self) (base_radius self) (radius self)
     (on_ground self) (scale_factor self) (scale_timer self) (rotation self)
     (lives self) (gravity self) (jump_force self) (move_speed self)
     (friction self).

Definition set_velocity (self : t) (v : Point) : t :=
  mk (original_pos self) (pos self) v (base_radius self) (radius self)
     (on_ground self) (scale_factor self) (scale_timer self) (rotation self)
     (lives self) (gravity self) (jump_force self) (move_speed self)
     (friction self).

Definition set_on_ground (self : t) (b : bool) : t :=
  mk (original_pos self) (pos self) (velocity self) (base_radius self)
     (radius self) b (scale_factor self) (scale_timer self) (rotation self)
     (lives self) (gravity self) (jump_force self) (move_speed self)
     (friction self).

Definition set_lives (self : t) (n : Z) : t :=
  mk (original_pos self) (pos self) (velocity self) (base_radius self)
     (radius self) (on_ground self) (scale_factor self) (scale_timer self)
     (rotation self) n (gravity self) (jump_force self) (move_speed self)
     (friction self).

Definition set_scale (self : t) (factor : R) (timer : Z) : t :=
  mk (original_pos self) (pos self) (velocity self) (base_radius self)
     (radius self) (on_ground self) factor timer (rotation self)
     (lives self) (gravity self) (jump_force self) (move_speed self)
     (friction self).

Definition set_radius (self : t) (r : R) : t :=
  mk (original_pos self) (pos self) (velocity self) (base_radius self) r
     (on_ground self) (scale_factor self) (scale_timer self) (rotation self)
     (lives self) (gravity self) (jump_force self) (move_speed self)
     (friction self).

Definition set_rotation (self : t) (r : R) : t :=
  mk (original_pos self) (pos self) (velocity self) (base_radius self)
     (radius self) (on_ground self) (scale_factor self) (scale_timer self) r
     (lives self) (gravity self) (jump_force self) (move_speed self)
     (friction self).

Definition apply_powerup (self : t) (power_type : string) : t :=
  let self :=
    if (power_type =? "grow")%string then
      let self := set_scale self 2.0 (scale_timer self) in
      if (lives self <? 2)%Z then set_lives self (lives self + 1)%Z else self
    else
      let self := set_scale self 0.5 (scale_timer self) in
      set_lives self (lives self - 1)%Z in
  set_scale self (scale_factor self) 300.

Definition update (self : t) : t :=
  let self :=
    if (0 <? scale_timer self)%Z then
      let self := set_scale self (scale_factor self) (scale_timer self - 1) in
      if (scale_timer self =? 0)%Z then set_scale self 1.0 (scale_timer self)
      else self
    else self in
  let scale_matrix :=
    create_scale_matrix (scale_factor self) (scale_factor self) in
  let scaled_radius_point :=
    apply_transformation scale_matrix (base_radius self, 0) in
  let self := set_radius self (Rabs (fst scaled_radius_point)) in
  let self :=
    if negb (on_ground self)
    then set_velocity self (fst (velocity self),
                            snd (velocity self) + gravity self)
    else self in
  let self :=
    set_velocity self (fst (velocity self) * friction self,
                       snd (velocity self)) in
  let self :=
    if Rltb 0.1 (Rabs (fst (velocity self)))
    then set_rotation self (rotation self + fst (velocity self) * 0.1)
    else self in
  let translation_matrix :=
    create_translation_matrix (fst (velocity self)) (snd (velocity self)) in
  let self := set_pos self (apply_transformation translation_matrix (pos self)) in
  set_on_ground self false.

Definition move_left (self : t) : t :=
  set_velocity self (- move_speed self, snd (velocity self)).

Definition move_right (self : t) : t :=
  set_velocity self (move_speed self, snd (velocity self)).

Definition jump (self : t) : t :=
  if on_ground self
  then set_velocity self (fst (velocity self), jump_force self)
  else self.

(** [pygame.Rect(pos[0] - radius, pos[1] - radius, radius * 2, radius * 2)] *)
Definition bounding_rect (p : Point) (r : R) : Rect.t :=
  Rect.of_floats (fst p - r) (snd p - r) (r * 2) (r * 2).

Definition platform_velocity_of (platform : AnyPlatform) : Point :=
  match platform with
  | Static _ => (0, 0)
  | Moving m => MovingPlatform.velocity m
  end.

(** The [if / elif] chain that resolves one overlapping platform along the
    axis of least overlap. *)
Definition resolve (self : t) (platform : AnyPlatform) : t :=
  let r := platform_rect platform in
  let platform_velocity := platform_velocity_of platform in
  let overlap_left := (fst (pos self) + radius self) - IZR (Rect.left r) in
  let overlap_right := IZR (Rect.right r) - (fst (pos self) - radius self) in
  let overlap_top := (snd (pos self) + radius self) - IZR (Rect.top r) in
  let overlap_bottom := IZR (Rect.bottom r) - (snd (pos self) - radius self) in
  let min_overlap := min4 overlap_left overlap_right overlap_top overlap_bottom in
  if Reqb min_overlap overlap_top && Rleb 0 (snd (velocity self)) then
    let self := set_pos self (fst (pos self), IZR (Rect.top r) - radius self) in
    let self := set_velocity self (fst (velocity self), 0) in
    let self := set_on_ground self true in
    match platform with
    | Static _ => self
    | Moving m =>
        let self :=
          set_velocity self
            (fst (velocity self) + fst platform_velocity * 0.8,
             snd (velocity self)) in
        let self :=
          set_velocity self
            (fst (velocity self),
             snd (velocity self) + snd platform_velocity * 0.8) in
        if (MovingPlatform.move_type m =? "vertical")%string then
          let self :=
            set_pos self (fst (pos self), IZR (Rect.top r) - radius self) in
          set_velocity self (fst (velocity self), snd platform_velocity)
        else self
    end
  else if Reqb min_overlap overlap_bottom && Rleb (snd (velocity self)) 0 then
    let self := set_pos self (fst (pos self), IZR (Rect.bottom r) + radius self) in
    let self := set_velocity self (fst (velocity self), 0) in
    match platform with
    | Static _ => self
    | Moving _ =>
        set_velocity self
          (fst (velocity self),
           snd (velocity self) + snd platform_velocity * 0.5)
    end
  else if Reqb min_overlap overlap_left && Rleb 0 (fst (velocity self)) then
    let self := set_pos self (IZR (Rect.left r) - radius self, snd (pos self)) in
    let self := set_velocity self (0, snd (velocity self)) in
    match platform with
    | Static _ => self
    | Moving _ =>
        set_velocity self
          (fst (velocity self) + fst platform_velocity * 0.3,
           snd (velocity self))
    end
  else if Reqb min_overlap overlap_right && Rleb (fst (velocity self)) 0 then
    let self := set_pos self (IZR (Rect.right r) + radius self, snd (pos self)) in
    let self := set_velocity self (0, snd (velocity self)) in
    match platform with
    | Static _ => self
    | Moving _ =>
        set_velocity self
          (fst (velocity self) + fst platform_velocity * 0.3,
           snd (velocity self))
    end
  else self.

(** The additional check for fast-moving platforms. *)
Definition fast_platform_check (self : t) (platform : AnyPlatform) : t :=
  match platform with
  | Static _ => self
  | Moving m =>
      let platform_velocity := MovingPlatform.velocity m in
      if Rltb 5 (Rabs (fst platform_velocity))
         || Rltb 5 (Rabs (snd platform_velocity)) then
        let next_pos := (fst (pos self) + fst (velocity self),
                         snd (pos self) + snd (velocity self)) in
        let next_rect := bounding_rect next_pos (radius self) in
        if Rect.colliderect next_rect (MovingPlatform.rect m) then
          if (MovingPlatform.move_type m =? "vertical")%string then
            set_velocity self (fst (velocity self), snd platform_velocity)
          else if (MovingPlatform.move_type m =? "horizontal")%string then
            set_velocity self (fst platform_velocity * 0.8, snd (velocity self))
          else self
        else self
      else self
  end.

(** One iteration of the loop over the platforms; the loop state is the
    ball together with the local [ball_rect]. *)
Definition collision_step (st : t * Rect.t) (platform : AnyPlatform)
    : t * Rect.t :=
  let '(self, ball_rect) := st in
  if Rect.colliderect ball_rect (platform_rect platform) then
    let self := resolve self platform in
    let ball_rect :=
      Rect.assign ball_rect (fst (pos self) - radius self)
                            (snd (pos self) - radius self) in
    let self := fast_platform_check self platform in
    (self, ball_rect)
  else (self, ball_rect).

Definition handle_platform_collision (self : t) (platforms : list AnyPlatform)
    : t :=
  let ball_rect := bounding_rect (pos self) (radius self) in
  fst (fold_left collision_step platforms (self, ball_rect)).

End Ball.

(** ** Collectibles *)

Module PowerUp.

Record t : Type := mk {
  x : Z;
  y : Z;
  power_type : string;
  width : Z;
  height : Z;
  collected : bool
}.

Definition init (x y : Z) (power_type : string) : t :=
  mk x y power_type 20 20 false.

Definition collect (self : t) : t :=
  mk (x self) (y self) (power_type self) (width self) (height self) true.

End PowerUp.

Module Coin.

Record t : Type := mk {
  x : Z;
  y : Z;
  radius : Z;
  collected : bool;
  rotation : R
}.

Definition init (x y : Z) : t := mk x y 10 false 0.

Definition update (self : t) : t :=
  mk (x self) (y self) (radius self) (collected self) (rotation self + 0.1).

Definition collect (self : t) : t :=
  mk (x self) (y self) (radius self) true (rotation self).

End Coin.

Module Flag.

Record t : Type := mk {
  x : Z;
  y : Z;
  pole_height : Z;
  flag_width : Z;
  flag_height : Z;
  wave_time : R;
  collected : bool
}.

Definition init (x y : Z) : t := mk x y 100 60 40 0 false.

Definition update (self : t) : t :=
  mk (x self) (y self) (pole_height self) (flag_width self)
     (flag_height self) (wave_time self + 0.1) (collected self).

Definition collect (self : t) : t :=
  mk (x self) (y self) (pole_height self) (flag_width self)
     (flag_height self) (wave_time self) true.

End Flag.

(** ** Game *)

Module Game.

(** The window, clock, font and flag image only serve drawing and are not
    part of the state.  [all_platforms] holds the very objects of
    [platforms] and [moving_platforms], so it is derived from them. *)
Record t : Type := mk {
  width : Z;
  height : Z;
  current_level : Z;
  max_level : Z;
  ball : Ball.t;
  platforms : list Platform.t;
  moving_platforms : list MovingPlatform.t;
  coins : list Coin.t;
  powerups : list PowerUp.t;
  flag : Flag.t;
  camera : Camera.t;
  score : Z;
  level_complete : bool;
  frame_alpha : R
}.

Definition all_platforms (self : t) : list AnyPlatform :=
  map Static (platforms self) ++ map Moving (moving_platforms self).

Definition create_platforms (current_level : Z) : list Platform.t :=
  if (current_level =? 1)%Z then
    [ Platform.init 0 550 200 50;
      Platform.init 250 450 150 20;
      Platform.init 450 350 100 20;
      Platform.init 600 250 120 20;
      Platform.init 1150 200 150 20;
      Platform.init 1350 350 100 20;
      Platform.init 1750 500 150 50 ]
  else if (current_level =? 2)%Z then
    [ Platform.init 0 550 200 50;
      Platform.init 300 450 150 20;
      Platform.init 500 350 60 20;
      Platform.init 580 350 60 20;
      Platform.init 700 250 120 20;
      Platform.init 900 350 50 20;
      Platform.init 580 350 50 20;
      Platform.init 1100 450 150 20;
      Platform.init 1300 350 40 20;
      Platform.init 1360 350 40 20;
      Platform.init 1500 250 120 20;
      Platform.init 1700 350 100 20;
      Platform.init 1850 500 150 50 ]
  else
    [ Platform.init 0 550 200 50;
      Platform.init 250 450 150 20;
      Platform.init 450 350 100 20;
      Platform.init 650 250 120 20;
      Platform.init 850 150 100 20;
      Platform.init 1050 250 120 20;
      Platform.init 1250 350 100 20;
      Platform.init 1450 450 150 20;
      Platform.init 1650 350 100 20;
      Platform.init 1850 500 150 50 ].

Definition create_moving_platforms (current_level : Z) : list MovingPlatform.t :=
  if (current_level =? 1)%Z then
    [ MovingPlatform.init 800 400 100 20 "horizontal" 1.5 80;
      MovingPlatform.init 950 300 80 20 "vertical" 1.0 60;
      MovingPlatform.init 1500 300 90 20 "circular" 0.8 100;
      MovingPlatform.init 1600 450 100 20 "horizontal" 2.0 120 ]
  else if (current_level =? 2)%Z then
    [ MovingPlatform.init 400 400 100 20 "vertical" 1.0 80;
      MovingPlatform.init 600 300 80 20 "horizontal" 1.0 60;
      MovingPlatform.init 800 200 90 20 "circular" 0.8 100;
      MovingPlatform.init 1200 400 100 20 "vertical" 1.0 120;
      MovingPlatform.init 1400 300 80 20 "horizontal" 1.0 80 ]
  else
    [ MovingPlatform.init 350 400 100 20 "circular" 1.5 80;
      MovingPlatform.init 550 300 80 20 "vertical" 1.0 60;
      MovingPlatform.init 750 200 90 20 "horizontal" 0.8 100;
      MovingPlatform.init 1150 300 100 20 "circular" 2.0 120;
      MovingPlatform.init 1350 400 80 20 "vertical" 1.5 80;
      MovingPlatform.init 1550 300 90 20 "horizontal" 1.0 60 ].

Definition create_coins (current_level : Z) : list Coin.t :=
  if (current_level =? 1)%Z then
    [ Coin.init 320 410;
      Coin.init 500 310;
      Coin.init 660 210;
      Coin.init 850 360;
      Coin.init 950 260;
      Coin.init 1220 160;
      Coin.init 1400 310;
      Coin.init 1550 260;
      Coin.init 1820 460 ]
  else if (current_level =? 2)%Z then
    [ Coin.init 350 410;
      Coin.init 550 310;
      Coin.init 750 210;
      Coin.init 950 310;
      Coin.init 1150 410;
      Coin.init 1350 310;
      Coin.init 1550 210;
      Coin.init 1750 310;
      Coin.init 1900 460 ]
  else
    [ Coin.init 300 410;
      Coin.init 500 310;
      Coin.init 700 210;
      Coin.init 900 110;
      Coin.init 1100 210;
      Coin.init 1300 310;
      Coin.init 1500 410;
      Coin.init 1700 310;
      Coin.init 1900 460 ].

Definition create_powerups (current_level : Z) : list PowerUp.t :=
  if (current_level =? 1)%Z then
    [ PowerUp.init 300 430 "shrink";
      PowerUp.init 650 230 "grow";
      PowerUp.init 900 380 "shrink";
      PowerUp.init 1200 180 "grow";
      PowerUp.init 1450 330 "shrink" ]
  else if (current_level =? 2)%Z then
    [ PowerUp.init 450 330 "shrink";
      PowerUp.init 850 330 "shrink";
      PowerUp.init 1250 330 "shrink";
      PowerUp.init 1000 430 "grow";
      PowerUp.init 1600 430 "grow" ]
  else
    [ PowerUp.init 300 430 "grow";
      PowerUp.init 600 330 "shrink";
      PowerUp.init 900 130 "grow";
      PowerUp.init 1200 230 "shrink";
      PowerUp.init 1500 430 "grow";
      PowerUp.init 1800 330 "shrink" ].

(** The state that [reset_level] builds; it reads only the window size
    and the level counters. *)
Definition build_level (width height current_level max_level : Z) : t :=
  {| width := width;
     height := height;
     current_level := current_level;
     max_level := max_level;
     ball := Ball.init 100 400;
     platforms := create_platforms current_level;
     moving_platforms := create_moving_platforms current_level;
     coins := create_coins current_level;
     powerups := create_powerups current_level;
     flag := Flag.init 1850 450;
     camera := Camera.init width height;
     score := 0;
     level_complete := false;
     frame_alpha := 0.0 |}.

Definition reset_level (self : t) : t :=
  build_level (width self) (height self) (current_level self) (max_level self).

Definition init : t := build_level 1000 600 1 3.

(** Field assignments. *)
Definition set_ball (self : t) (b : Ball.t) : t :=
  mk (width self) (height self) (current_level self) (max_level self) b
     (platforms self) (moving_platforms self) (coins self) (powerups self)
     (flag self) (camera self) (score self) (level_complete self)
     (frame_alpha self).

Definition set_camera (self : t) (c : Camera.t) : t :=
  mk (width self) (height self) (current_level self) (max_level self)
     (ball self) (platforms self) (moving_platforms self) (coins self)
     (powerups self) (flag self) c (score self) (level_complete self)
     (frame_alpha self).

Definition set_score (self : t) (n : Z) : t :=
  mk (width self) (height self) (current_level self) (max_level self)
     (ball self) (platforms self) (moving_platforms self) (coins self)
     (powerups self) (flag self) (camera self) n (level_complete self)
     (frame_alpha self).

Definition set_current_level (self : t) (n : Z) : t :=
  mk (width self) (height self) n (max_level self)
     (ball self) (platforms self) (moving_platforms self) (coins self)
     (powerups self) (flag self) (camera self) (score self)
     (level_complete self) (frame_alpha self).

Definition set_level_complete (self : t) (b : bool) : t :=
  mk (width self) (height self) (current_level self) (max_level self)
     (ball self) (platforms self) (moving_platforms self) (coins self)
     (powerups self) (flag self) (camera self) (score self) b
     (frame_alpha self).

Definition set_flag (self : t) (f : Flag.t) : t :=
  mk (width self) (height self) (current_level self) (max_level self)
     (ball self) (platforms self) (moving_platforms self) (coins self)
     (powerups self) f (camera self) (score self) (level_complete self)
     (frame_alpha self).

Definition set_coins (self : t) (cs : list Coin.t) : t :=
  mk (width self) (height self) (current_level self) (max_level self)
     (ball self) (platforms self) (moving_platforms self) cs
     (powerups self) (flag self) (camera self) (score self)
     (level_complete self) (frame_alpha self).

Definition set_powerups (self : t) (ps : list PowerUp.t) : t :=
  mk (width self) (height self) (current_level self) (max_level self)
     (ball self) (platforms self) (moving_platforms self) (coins self)
     ps (flag self) (camera self) (score self) (level_complete self)
     (frame_alpha self).

Definition set_moving_platforms (self : t) (ms : list MovingPlatform.t) : t :=
  mk (width self) (height self) (current_level self) (max_level self)
     (ball self) (platforms self) ms (coins self)
     (powerups self) (flag self) (camera self) (score self)
     (level_complete self) (frame_alpha self).

Definition update_camera (self : t) (u1 u2 : R) : t :=
  let b := ball self in
  let cam := Camera.set_target (camera self) (fst (Ball.pos b)) (snd (Ball.pos b)) in
  let cam :=
    if Rltb 1.0 (Ball.scale_factor b) then Camera.set_zoom_target cam 0.8
    else if Rltb (Ball.scale_factor b) 1.0 then Camera.set_zoom_target cam 1.3
    else Camera.set_zoom_target cam 1.0 in
  let cam :=
    if Ball.on_ground b && Rltb 8 (Rabs (snd (Ball.velocity b)))
    then Camera.add_screen_shake cam 3 10
    else cam in
  set_camera self (Camera.update cam u1 u2).

Definition coin_rect (coin : Coin.t) : Rect.t :=
  Rect.mk (Coin.x coin - Coin.radius coin) (Coin.y coin - Coin.radius coin)
          (Coin.radius coin * 2) (Coin.radius coin * 2).

Definition powerup_rect (powerup : PowerUp.t) : Rect.t :=
  Rect.mk (PowerUp.x powerup) (PowerUp.y powerup)
          (PowerUp.width powerup) (PowerUp.height powerup).

Definition flag_rect (f : Flag.t) : Rect.t :=
  Rect.mk (Flag.x f - 10) (Flag.y f - Flag.pole_height f)
          (Flag.flag_width f + 20) (Flag.pole_height f + 20).

(** The loop over the coins: the coins as they are left, the score and
    the camera. *)
Fixpoint collect_coins (ball_rect : Rect.t) (cs : list Coin.t) (score : Z)
    (cam : Camera.t) : list Coin.t * Z * Camera.t :=
  match cs with
  | [] => ([], score, cam)
  | coin :: rest =>
      if negb (Coin.collected coin)
         && Rect.colliderect ball_rect (coin_rect coin) then
        let '(rest', score', cam') :=
          collect_coins ball_rect rest (score + 10)%Z
                        (Camera.add_screen_shake cam 1 5) in
        (Coin.collect coin :: rest', score', cam')
      else
        let '(rest', score', cam') := collect_coins ball_rect rest score cam in
        (coin :: rest', score', cam')
  end.

(** The loop over the power-ups: the power-ups as they are left, the ball
    and the camera. *)
Fixpoint collect_powerups (ball_rect : Rect.t) (ps : list PowerUp.t)
    (b : Ball.t) (cam : Camera.t) : list PowerUp.t * Ball.t * Camera.t :=
  match ps with
  | [] => ([], b, cam)
  | powerup :: rest =>
      if negb (PowerUp.collected powerup)
         && Rect.colliderect ball_rect (powerup_rect powerup) then
        let '(rest', b', cam') :=
          collect_powerups ball_rect rest
            (Ball.apply_powerup b (PowerUp.power_type powerup))
            (Camera.add_screen_shake cam 2 8) in
        (PowerUp.collect powerup :: rest', b', cam')
      else
        let '(rest', b', cam') := collect_powerups ball_rect rest b cam in
        (powerup :: rest', b', cam')
  end.

(** The last part of [check_collisions]: the flag and the level advance. *)
Definition check_flag (ball_rect : Rect.t) (self : t) : t :=
  if negb (Flag.collected (flag self)) then
    if Rect.colliderect ball_rect (flag_rect (flag self)) then
      let self := set_flag self (Flag.collect (flag self)) in
      let self := set_level_complete self true in
      let self := set_score self (score self + 100)%Z in
      let self := set_camera self (Camera.add_screen_shake (camera self) 5 30) in
      if (current_level self <? max_level self)%Z then
        let self := set_current_level self (current_level self + 1)%Z in
        let self := reset_level self in
        let self := set_level_complete self false in
        set_camera self (Camera.add_screen_shake (camera self) 8 45)
      else self
    else self
  else self.

Definition check_collisions (self : t) : t :=
  let ball_rect :=
    Ball.bounding_rect (Ball.pos (ball self)) (Ball.radius (ball self)) in
  let '(cs, sc, cam) :=
    collect_coins ball_rect (coins self) (score self) (camera self) in
  let self := set_camera (set_score (set_coins self cs) sc) cam in
  let '(ps, b, cam) :=
    collect_powerups ball_rect (powerups self) (ball self) (camera self) in
  let self := set_camera (set_ball (set_powerups self ps) b) cam in
  check_flag ball_rect self.

(** *** The main loop *)

Inductive Key : Type :=
| K_r | K_LEFT | K_RIGHT | K_a | K_d | K_SPACE | K_UP | K_other.

Inductive Event : Type :=
| QUIT
| KEYDOWN (key : Key)
| OTHER.

Definition is_K_r (k : Key) : bool :=
  match k with K_r => true | _ => false end.

(** One iteration of the loop over [pygame.event.get()]; the state is the
    game with the local [running]. *)
Definition handle_event (st : t * bool) (event : Event) : t * bool :=
  let '(self, running) := st in
  match event with
  | QUIT => (self, false)
  | KEYDOWN key =>
      if is_K_r key && level_complete self
         && (current_level self =? max_level self)%Z then
        (reset_level (set_current_level self 1), running)
      else if (Ball.lives (ball self) <=? 0)%Z then
        let self := set_score self 0 in
        let self := reset_level self in
        (set_camera self (Camera.add_screen_shake (camera self) 10 60), running)
      else (self, running)
  | OTHER => (self, running)
  end.

Definition handle_keys (keys : Key -> bool) (b : Ball.t) : Ball.t :=
  let b := if keys K_LEFT || keys K_a then Ball.move_left b else b in
  let b := if keys K_RIGHT || keys K_d then Ball.move_right b else b in
  if keys K_SPACE || keys K_UP then Ball.jump b else b.

(** [for platform in self.moving_platforms: platform.update()] *)
Fixpoint update_platforms (ms : list MovingPlatform.t)
    : option (list MovingPlatform.t) :=
  match ms with
  | [] => Some []
  | m :: rest =>
      match MovingPlatform.update m with
      | None => None
      | Some m' =>
          match update_platforms rest with
          | None => None
          | Some rest' => Some (m' :: rest')
          end
      end
  end.

(** The three assignments made on a ball that has left the playfield. *)
Definition respawn (b : Ball.t) : Ball.t :=
  let b := Ball.set_pos b (Ball.original_pos b) in
  let b := Ball.set_velocity b (0, 0) in
  Ball.set_lives b (Ball.lives b - 1)%Z.

(** The respawn when the ball has left the playfield. *)
Definition check_fall (self : t) : t :=
  if Rltb (IZR (height self + 100)) (snd (Ball.pos (ball self))) then
    let self := set_ball self (respawn (ball self)) in
    if (Ball.lives (ball self) <=? 0)%Z then
      let self := set_score self 0 in
      let self := reset_level self in
      set_camera self (Camera.add_screen_shake (camera self) 10 60)
    else self
  else self.

(** [self.ball.handle_platform_collision(self.all_platforms)] *)
Definition collide (self : t) : t :=
  set_ball self
    (Ball.handle_platform_collision (ball self) (all_platforms self)).

(** The simulation part of an iteration, run while the level is not
    complete. *)
Definition simulate (self : t) (u1 u2 : R) : option t :=
  let self := set_ball self (Ball.update (ball self)) in
  let self := collide self in
  match update_platforms (moving_platforms self) with
  | None => None
  | Some ms =>
      let self := set_moving_platforms self ms in
      let self := set_coins self (map Coin.update (coins self)) in
      let self := set_flag self (Flag.update (flag self)) in
      let self := check_collisions self in
      let self := update_camera self u1 u2 in
      Some (check_fall self)
  end.

(** What one iteration of the loop of [run] takes from outside: the
    pending events, the pressed keys and the two random draws of the
    camera. *)
Record Input : Type := mkInput {
  events : list Event;
  keys : Key -> bool;
  draw1 : R;
  draw2 : R
}.

(** One iteration of [while running]. *)
Definition iteration (self : t) (i : Input) : option (t * bool) :=
  let '(self, running) := fold_left handle_event (events i) (self, true) in
  let self := set_ball self (handle_keys (keys i) (ball self)) in
  if negb (level_complete self) then
    match simulate self (draw1 i) (draw2 i) with
    | None => None
    | Some self => Some (self, running)
    end
  else Some (self, running).

(** [run] on a finite supply of inputs; the loop stops when [running]
    has been cleared. *)
Fixpoint run (self : t) (inputs : list Input) : option t :=
  match inputs with
  | [] => Some self
  | i :: rest =>
      match iteration self i with
      | None => None
      | Some (self', running) => if running then run self' rest else Some self'
      end
  end.

End Game.

(** * Notions used by the statements *)

Section CameraNotions.
Import MatrixMath Camera.

(** What every camera built by [Camera.init] and driven through its
    methods satisfies. *)
Definition zoom_inv (c : Camera.t) : Prop :=
  zoom_lerp_speed c = 0.05 /\
  0.5 <= zoom c <= 2.0 /\
  0.5 <= target_zoom c <= 2.0.

(** [exec] together with the shake offset that the most recent [update]
    applied (zero before the first one). *)
Definition exec_traced (st : Camera.t * Point) (o : op) : Camera.t * Point :=
  match o with
  | Update u1 u2 => (update (fst st) u1 u2, shake_offset (fst st) u1 u2)
  | _ => (exec (fst st) o, snd st)
  end.

Definition last_shake (c : Camera.t) (ops : list op) : Point :=
  snd (fold_left exec_traced ops (c, (0, 0))).

(** The view matrix is the one built from the position displaced by the
    offset [s], and the zoom. *)
Definition view_inv (c : Camera.t) (s : Point) : Prop :=
  view_matrix c =
  create_view_matrix (fst (position c) + fst s) (snd (position c) + snd s)
                     (zoom c).

End CameraNotions.

Section PlatformNotions.
Import MatrixMath MovingPlatform.

Definition valid_move_type (s : string) : Prop :=
  s = "horizontal"%string \/ s = "vertical"%string \/ s = "circular"%string.

(** The fields that the constructor sets and [update] never assigns. *)
Definition same_parameters (a b : MovingPlatform.t) : Prop :=
  width a = width b /\ height a = height b /\
  original_pos a = original_pos b /\ move_type a = move_type b /\
  speed a = speed b /\ distance a = distance b /\
  center_x a = center_x b /\ center_y a = center_y b /\
  radius a = radius b.

(** The motion model in the words of the specification: the position at
    accumulated time [t], from the constructor arguments alone.
    horizontal: [x = x0 + sin(t * speed) * distance], [y = y0];
    vertical: [x = x0], [y = y0 + sin(t * speed) * distance];
    circular: the orbit centre plus [[radius, 0]] rotated by [t * speed],
    less the half extent. *)
Definition position_at (x0 y0 width height : Z) (move_type : string)
    (speed : R) (distance : Z) (t : R) : option Point :=
  if (move_type =? "horizontal")%string then
    Some (IZR x0 + sin (t * speed) * IZR distance, IZR y0)
  else if (move_type =? "vertical")%string then
    Some (IZR x0, IZR y0 + sin (t * speed) * IZR distance)
  else if (move_type =? "circular")%string then
    let r := IZR (distance / 2) in
    let angle := t * speed in
    Some (IZR (x0 + width / 2) + r * cos angle - IZR (width / 2),
          IZR (y0 + height / 2) + r * sin angle - IZR (height / 2))
  else None.

(** [n] calls of [update] in a row. *)
Fixpoint updates (n : nat) (mp : MovingPlatform.t) : option MovingPlatform.t :=
  match n with
  | O => Some mp
  | S k =>
      match update mp with
      | None => None
      | Some mp' => updates k mp'
      end
  end.

(** Distance from the centre point of a platform placed at [p] to its
    orbit centre [(center_x, center_y)]. *)
Definition orbit_distance (p : Point) (mp : MovingPlatform.t) : R :=
  let c := center_point p mp in
  sqrt ((fst c - IZR (center_x mp)) * (fst c - IZR (center_x mp)) +
        (snd c - IZR (center_y mp)) * (snd c - IZR (center_y mp))).

End PlatformNotions.

Section BallNotions.
Import MatrixMath Ball.

(** The calls the rest of the program makes on a ball. *)
Inductive ball_op : Type :=
| ApplyPowerup (power_type : string)
| BallUpdate
| MoveLeft
| MoveRight
| Jump
| HandleCollision (platforms : list AnyPlatform)
| Respawn.

Definition ball_exec (b : Ball.t) (o : ball_op) : Ball.t :=
  match o with
  | ApplyPowerup s => apply_powerup b s
  | BallUpdate => Ball.update b
  | MoveLeft => move_left b
  | MoveRight => move_right b
  | Jump => jump b
  | HandleCollision ps => handle_platform_collision b ps
  | Respawn => Game.respawn b
  end.

Definition ball_run (b : Ball.t) (ops : list ball_op) : Ball.t :=
  fold_left ball_exec ops b.

Definition is_powerup (o : ball_op) : bool :=
  match o with ApplyPowerup _ => true | _ => false end.

Definition is_update (o : ball_op) : bool :=
  match o with BallUpdate => true | _ => false end.

(** No power-up is applied in [ops]. *)
Definition powerup_free (ops : list ball_op) : bool :=
  forallb (fun o => negb (is_powerup o)) ops.

Definition count_updates (ops : list ball_op) : nat :=
  List.length (filter is_update ops).

(** The effect of [Ball.update] on the scale factor and the scale timer. *)
Definition tick (st : R * Z) : R * Z :=
  let '(factor, timer) := st in
  if (0 <? timer)%Z then
    (if (timer - 1 =? 0)%Z then 1.0 else factor, (timer - 1)%Z)
  else (factor, timer).

Definition scale_state (b : Ball.t) : R * Z := (scale_factor b, scale_timer b).

(** Two balls that differ at most in position, velocity and the
    on-ground flag. *)
Definition same_but_motion (a b : Ball.t) : Prop :=
  original_pos a = original_pos b /\ base_radius a = base_radius b /\
  radius a = radius b /\ scale_factor a = scale_factor b /\
  scale_timer a = scale_timer b /\ rotation a = rotation b /\
  lives a = lives b /\ gravity a = gravity b /\
  jump_force a = jump_force b /\ move_speed a = move_speed b /\
  friction a = friction b.

(** What every ball built by [Ball.init] and driven through its methods
    satisfies. *)
Definition ball_inv (b : Ball.t) : Prop :=
  base_radius b = 15 /\
  (scale_factor b = 0.5 \/ scale_factor b = 1.0 \/ scale_factor b = 2.0) /\
  (lives b <= 2)%Z.

(** The four directional overlaps of [handle_platform_collision]. *)
Definition overlap_left (b : Ball.t) (r : Rect.t) : R :=
  (fst (pos b) + radius b) - IZR (Rect.left r).
Definition overlap_right (b : Ball.t) (r : Rect.t) : R :=
  IZR (Rect.right r) - (fst (pos b) - radius b).
Definition overlap_top (b : Ball.t) (r : Rect.t) : R :=
  (snd (pos b) + radius b) - IZR (Rect.top r).
Definition overlap_bottom (b : Ball.t) (r : Rect.t) : R :=
  IZR (Rect.bottom r) - (snd (pos b) - radius b).

(** The top overlap is the least of the four. *)
Definition top_is_min (b : Ball.t) (r : Rect.t) : Prop :=
  min4 (overlap_left b r) (overlap_right b r) (overlap_top b r)
       (overlap_bottom b r) = overlap_top b r.

(** The local [ball_rect] once the ball has been put on top of [r]: the
    rectangle built at the start of the pass, with [x] and [y] reassigned
    (and so rounded) from the landed position. *)
Definition rect_after_landing (b : Ball.t) (r : Rect.t) : Rect.t :=
  Rect.assign (bounding_rect (pos b) (radius b))
    (fst (pos b) - radius b)
    (IZR (Rect.top r) - radius b - radius b).

(** In the words of the claim: the ball's bounding square, of side twice
    the radius and with real coordinates, overlaps the rectangle [r]. *)
Definition squares_overlap (b : Ball.t) (r : Rect.t) : Prop :=
  fst (pos b) - radius b < IZR (Rect.right r) /\
  IZR (Rect.left r) < fst (pos b) + radius b /\
  snd (pos b) - radius b < IZR (Rect.bottom r) /\
  IZR (Rect.top r) < snd (pos b) + radius b.

End BallNotions.

(** * Concrete inputs used by the examples *)

(** A ball of radius 15 at (50, 90), falling at 1 per frame. *)
Definition falling_ball : Ball.t := Ball.set_velocity (Ball.init 50 90) (0, 1).

(** A platform whose top, at 100, the falling ball has reached. *)
Definition ledge : Platform.t := Platform.init 0 100 200 50.

(** A thin platform just above, whose underside is at 72. *)
Definition shelf : Platform.t := Platform.init 0 60 200 12.

(** A ball of radius 15 at (50, 85.5), falling at 1 per frame: its
    bounding square reaches half a unit into the ledge. *)
Definition grazing_ball : Ball.t := Ball.set_velocity (Ball.init 50 85.5) (0, 1).

(** A ball of radius 15 at (50.75, 90), falling at 1 per frame. *)
Definition drifting_ball : Ball.t := Ball.set_velocity (Ball.init 50.75 90) (0, 1).

(** The second static platform of level 1, far from the ledge. *)
Definition far_platform : Platform.t := Platform.init 250 450 150 20.

(** The circular platform of level 1, as the constructor builds it. *)
Definition orbiting_carrier : MovingPlatform.t :=
  MovingPlatform.init 1500 300 90 20 "circular" 0.8 100.

(** A game on level 1 with 50 points whose ball has reached the flag. *)
Definition game_at_flag : Game.t :=
  Game.set_score
    (Game.set_ball Game.init (Ball.set_pos (Ball.init 100 400) (1850, 400))) 50.

(** A ball with one life left, at rest on the platform (250, 450, 150, 20)
    of level 1, where it touches the shrink power-up at (300, 430). *)
Definition ball_on_powerup : Ball.t :=
  Ball.set_on_ground
    (Ball.set_lives (Ball.set_pos (Ball.init 100 400) (310, 435)) 1) true.

(** Level 1 with 10 points and that ball. *)
Definition last_life_game : Game.t :=
  Game.set_score (Game.set_ball Game.init ball_on_powerup) 10.

(** An iteration in which no event is pending and no key is held. *)
Definition idle_input (u1 u2 : R) : Game.Input :=
  Game.mkInput [] (fun _ => false) u1 u2.

(** The first moving platform of level 1. *)
Definition first_carrier : MovingPlatform.t :=
  MovingPlatform.init 800 400 100 20 "horizontal" 1.5 80.

(** Three hundred updates and nothing else. *)
Definition three_hundred_updates : list ball_op := repeat BallUpdate 300.

Section MatrixNotions.
Import MatrixMath.

(** The bottom row of [m] is [[0, 0, 1]]. *)
Definition affine (m : Matrix) : Prop := snd m = (0, 0, 1).

(** [lerp] on both coordinates of a point. *)
Definition point_lerp (a b : Point) (t : R) : Point :=
  (lerp (fst a) (fst b) t, lerp (snd a) (snd b) t).

End MatrixNotions.

Section CameraMoreNotions.
Import MatrixMath Camera.

(** [update] called once for every pair of random draws of [draws]. *)
Definition camera_updates (c : Camera.t) (draws : list (R * R)) : Camera.t :=
  fold_left (fun c d => update c (fst d) (snd d)) draws c.

(** The pan limits and the position smoothing rate of a camera built by
    [Camera.init], with target and position inside the limits. *)
Definition pan_inv (c : Camera.t) : Prop :=
  min_x c = 0%Z /\ max_x c = 2000%Z /\ position_lerp_speed c = 0.08 /\
  0 <= fst (target_position c) <= 2000 /\
  -100 <= snd (target_position c) <= 100 /\
  0 <= fst (position c) <= 2000 /\
  -100 <= snd (position c) <= 100.

End CameraMoreNotions.

Section BallMoreNotions.
Import MatrixMath Ball.

(** [n] calls of [Ball.update] in a row. *)
Definition ball_updates (n : nat) (b : Ball.t) : Ball.t := Nat.iter n Ball.update b.

(** The physics constants of [Ball.init], the three radii, and the scale
    timer with its link to the scale factor. *)
Definition ball_shape_inv (b : Ball.t) : Prop :=
  gravity b = 0.5 /\ friction b = 0.8 /\ jump_force b = -12 /\ move_speed b = 5 /\
  (radius b = 7.5 \/ radius b = 15 \/ radius b = 30) /\
  (0 <= scale_timer b <= 300)%Z /\
  (scale_timer b = 0%Z -> scale_factor b = 1.0).

(** A velocity component after a pass over static platforms: kept, or
    cancelled. *)
Definition kept_or_zero (before after : R) : Prop :=
  after = before \/ after = 0.

End BallMoreNotions.

Section GameNotions.
Import Game.

(** The test under which the loop of [check_collisions] collects a coin. *)
Definition coin_hit (r : Rect.t) (c : Coin.t) : bool :=
  negb (Coin.collected c) && Rect.colliderect r (coin_rect c).

(** The test under which it collects a power-up. *)
Definition powerup_hit (r : Rect.t) (p : PowerUp.t) : bool :=
  negb (PowerUp.collected p) && Rect.colliderect r (powerup_rect p).

(** What the main loop keeps true of the game it started with. *)
Definition game_inv (g : Game.t) : Prop :=
  width g = 1000%Z /\ height g = 600%Z /\ max_level g = 3%Z /\
  (1 <= current_level g <= 3)%Z /\
  (Ball.lives (ball g) <= 2)%Z /\
  (0 <= score g)%Z /\
  Forall (fun m => valid_move_type (MovingPlatform.move_type m))
         (moving_platforms g).

(** The ball has left the playfield: the test of the respawn. *)
Definition fallen (g : Game.t) : bool :=
  Rltb (IZR (height g + 100)) (snd (Ball.pos (ball g))).

(** Level 3 as [reset_level] builds it, with the ball on the flag. *)
Definition last_level_at_flag : Game.t :=
  Game.set_ball (build_level 1000 600 3 3)
                (Ball.set_pos (Ball.init 100 400) (1850, 400)).

End GameNotions.

(** * Properties *)

Section CameraFacts.
Import MatrixMath Camera.

Lemma lerp_between (a b lo hi s : R) :
  0 <= s <= 1 -> lo <= a <= hi -> lo <= b <= hi -> lo <= lerp a b s <= hi.
Proof.
  intros Hs Ha Hb. unfold lerp.
  replace (a + s * (b - a)) with ((1 - s) * a + s * b) by ring.
  split; nra.
Qed.

Lemma clamp_between (lo hi z : R) :
  lo <= hi -> lo <= Rmax lo (Rmin z hi) <= hi.
Proof.
  intros Hle. unfold Rmax, Rmin.
  destruct (Rle_dec z hi); destruct (Rle_dec lo _); lra.
Qed.

End CameraFacts.

Section CameraZoom.
Import MatrixMath Camera.

Lemma zoom_inv_init (w h : Z) : zoom_inv (Camera.init w h).
Proof. unfold zoom_inv; simpl; lra. Qed.

Lemma zoom_inv_exec (c : Camera.t) (o : op) :
  zoom_inv c -> zoom_inv (exec c o).
Proof.
  intros (Hs & Hz & Ht).
  destruct o as [tx ty | z | i d | u1 u2]; unfold zoom_inv; simpl.
  - auto.
  - split; [exact Hs | split; [exact Hz | apply clamp_between; lra]].
  - auto.
  - unfold update. destruct (shake_offset c u1 u2) as [sx sy]. simpl.
    split; [exact Hs | split; [| exact Ht]].
    apply lerp_between; rewrite ?Hs; lra.
Qed.

Lemma zoom_inv_run (ops : list op) :
  forall c, zoom_inv c -> zoom_inv (run c ops).
Proof.
  induction ops as [| o ops IH]; intros c Hc; simpl.
  - exact Hc.
  - apply IH, zoom_inv_exec, Hc.
Qed.

(** C5. [set_zoom_target] clamps its argument to [0.5, 2.0]; whatever
    calls are made on a camera after its construction, its zoom and its
    zoom target stay within [0.5, 2.0], so the zoom that
    [screen_to_world] divides by is not zero. *)
Theorem zoom_stays_clamped (w h : Z) (ops : list op) (z : R) :
  let c := run (Camera.init w h) ops in
  let tz := target_zoom (set_zoom_target c z) in
  ((z < 0.5 /\ tz = 0.5) \/ (0.5 <= z <= 2.0 /\ tz = z) \/ (2.0 < z /\ tz = 2.0)) /\
  0.5 <= zoom c <= 2.0 /\
  0.5 <= target_zoom c <= 2.0 /\
  zoom c <> 0.
Proof.
  intros c tz.
  assert (Hinv : zoom_inv c) by (apply zoom_inv_run, zoom_inv_init).
  destruct Hinv as (_ & Hz & Ht).
  split; [| split; [exact Hz | split; [exact Ht | lra]]].
  subst tz; simpl. unfold Rmax, Rmin.
  destruct (Rle_dec z 2.0) as [H2 | H2];
    destruct (Rle_dec 0.5 _) as [H1 | H1]; lra.
Qed.

End CameraZoom.

Section CameraRoundTrip.
Import MatrixMath Camera.

Lemma point_eq (a b c d : R) : a = c -> b = d -> (a, b) = (c, d).
Proof. intros -> ->; reflexivity. Qed.

Lemma apply_view_matrix (cx cy z : R) (p : Point) :
  apply_transformation (create_view_matrix cx cy z) p =
  (z * (fst p - cx), z * (snd p - cy)).
Proof.
  destruct p as [x y]. unfold apply_transformation; simpl.
  apply point_eq; ring.
Qed.

Lemma screen_to_world_eq (c : Camera.t) (q : Point) :
  screen_to_world c q =
  (fst q * (1 / zoom c) + fst (position c),
   snd q * (1 / zoom c) + snd (position c)).
Proof.
  destruct q as [x y]. unfold screen_to_world, apply_transformation; simpl.
  apply point_eq; ring.
Qed.

Lemma traced_fst (ops : list op) :
  forall c s, fst (fold_left exec_traced ops (c, s)) = run c ops.
Proof.
  induction ops as [| o ops IH]; intros c s; simpl; [reflexivity |].
  destruct o; simpl; apply IH.
Qed.

Lemma view_inv_exec (c : Camera.t) (s : Point) (o : op) :
  view_inv c s ->
  view_inv (fst (exec_traced (c, s) o)) (snd (exec_traced (c, s) o)).
Proof.
  intros Hv. destruct o as [tx ty | z | i d | u1 u2]; simpl; try exact Hv.
  unfold view_inv, update.
  destruct (shake_offset c u1 u2) as [sx sy]; reflexivity.
Qed.

Lemma view_inv_traced (ops : list op) :
  forall c s, view_inv c s ->
    view_inv (run c ops) (snd (fold_left exec_traced ops (c, s))).
Proof.
  induction ops as [| o ops IH]; intros c s Hv; simpl; [exact Hv |].
  pose proof (view_inv_exec c s o Hv) as Hstep.
  destruct (exec_traced (c, s) o) as [c' s'] eqn:E.
  replace (exec c o) with c'.
  - apply IH, Hstep.
  - pose proof (traced_fst [o] c s) as Hf. simpl in Hf.
    rewrite E in Hf. exact Hf.
Qed.

(** C4. On every camera, [world_to_screen] scales by the zoom the point
    taken relative to the position displaced by the shake offset of the
    last [update], and [screen_to_world] divides by the zoom and adds the
    position alone.  So [screen_to_world (world_to_screen p)] is [p] less
    that shake offset: it is [p] exactly when the offset was zero. *)
Theorem round_trip_off_by_shake (w h : Z) (ops : list op) (p : Point) :
  let c := run (Camera.init w h) ops in
  let s := last_shake (Camera.init w h) ops in
  world_to_screen c p =
    (zoom c * (fst p - (fst (position c) + fst s)),
     zoom c * (snd p - (snd (position c) + snd s))) /\
  (forall q, screen_to_world c q =
    (fst q * (1 / zoom c) + fst (position c),
     snd q * (1 / zoom c) + snd (position c))) /\
  screen_to_world c (world_to_screen c p) = (fst p - fst s, snd p - snd s) /\
  (screen_to_world c (world_to_screen c p) = p <-> s = (0, 0)).
Proof.
  intros c s.
  assert (Hv : view_inv c s).
  { apply view_inv_traced. unfold view_inv; simpl.
    rewrite !Rplus_0_r. reflexivity. }
  assert (Hz : zoom c <> 0).
  { pose proof (zoom_inv_run ops _ (zoom_inv_init w h)) as (_ & Hz & _).
    fold c in Hz. lra. }
  assert (Hw : world_to_screen c p =
    (zoom c * (fst p - (fst (position c) + fst s)),
     zoom c * (snd p - (snd (position c) + snd s)))).
  { unfold world_to_screen. rewrite Hv. apply apply_view_matrix. }
  assert (Hr : screen_to_world c (world_to_screen c p) =
               (fst p - fst s, snd p - snd s)).
  { rewrite Hw, screen_to_world_eq. simpl. apply point_eq; field; exact Hz. }
  split; [exact Hw |]. split; [intro q; apply screen_to_world_eq |].
  split; [exact Hr |].
  rewrite Hr. destruct p as [x y], s as [sx sy]; simpl.
  split; intro H; inversion H; apply point_eq; lra.
Qed.

End CameraRoundTrip.

Section MovingPlatformFacts.
Import MatrixMath MovingPlatform.

Lemma same_parameters_refl (a : MovingPlatform.t) : same_parameters a a.
Proof. unfold same_parameters; tauto. Qed.

Lemma same_parameters_trans (a b c : MovingPlatform.t) :
  same_parameters a b -> same_parameters b c -> same_parameters a c.
Proof. unfold same_parameters; intuition congruence. Qed.

Lemma new_position_total (mp : MovingPlatform.t) (t : R) :
  valid_move_type (move_type mp) -> exists p, new_position mp t = Some p.
Proof.
  unfold new_position. intros [H | [H | H]]; rewrite H; simpl; eauto.
Qed.

(** What one [update] does, given the position it computes. *)
Lemma update_commits (mp : MovingPlatform.t) (new_x new_y : R) :
  new_position mp (time mp + 0.02) = Some (new_x, new_y) ->
  exists mp',
    update mp = Some mp' /\
    x mp' = new_x /\ y mp' = new_y /\
    velocity mp' = (new_x - x mp, new_y - y mp) /\
    time mp' = time mp + 0.02 /\
    rect mp' = Rect.move_to (rect mp) new_x new_y /\
    same_parameters mp mp'.
Proof.
  intros Hn. unfold update. rewrite Hn.
  assert (Hx : fst (apply_transformation
                      (create_translation_matrix (new_x - x mp) (new_y - y mp))
                      (x mp, y mp)) = new_x)
    by (unfold apply_transformation; simpl; ring).
  assert (Hy : snd (apply_transformation
                      (create_translation_matrix (new_x - x mp) (new_y - y mp))
                      (x mp, y mp)) = new_y)
    by (unfold apply_transformation; simpl; ring).
  eexists; split; [reflexivity |].
  cbn [x y velocity time rect].
  rewrite Hx, Hy.
  repeat split; reflexivity.
Qed.

Lemma new_position_parameters (a b : MovingPlatform.t) (t : R) :
  same_parameters a b -> new_position a t = new_position b t.
Proof.
  intros (Hw & Hh & Ho & Hm & Hs & Hd & Hcx & Hcy & Hr).
  unfold new_position. rewrite Hw, Hh, Ho, Hm, Hs, Hd, Hcx, Hcy, Hr.
  reflexivity.
Qed.

Lemma new_position_init (x0 y0 w h : Z) (mt : string) (sp : R) (d : Z) (t : R) :
  new_position (init x0 y0 w h mt sp d) t = position_at x0 y0 w h mt sp d t.
Proof.
  unfold new_position, position_at; simpl.
  destruct (mt =? "horizontal")%string; [reflexivity |].
  destruct (mt =? "vertical")%string; [reflexivity |].
  destruct (mt =? "circular")%string; [| reflexivity].
  unfold apply_transformation; simpl. f_equal. apply point_eq; ring.
Qed.

(** C3. From any state of a platform built with given constructor
    arguments, [update] succeeds, leaves as velocity the committed
    position minus the previous one, and commits the position it
    computed ([new_position]): the one the motion model gives for the
    advanced time and the constructor arguments, whatever the previous
    position was. *)
Theorem update_velocity_and_position
    (x0 y0 w h : Z) (mt : string) (sp : R) (d : Z) (mp : MovingPlatform.t) :
  valid_move_type mt ->
  same_parameters (init x0 y0 w h mt sp d) mp ->
  exists mp',
    update mp = Some mp' /\
    time mp' = time mp + 0.02 /\
    velocity mp' = (x mp' - x mp, y mp' - y mp) /\
    new_position mp (time mp') = Some (x mp', y mp') /\
    position_at x0 y0 w h mt sp d (time mp') = Some (x mp', y mp') /\
    same_parameters (init x0 y0 w h mt sp d) mp'.
Proof.
  intros Hv Hp.
  assert (Hmt : move_type mp = mt) by (symmetry; apply Hp).
  destruct (new_position_total mp (time mp + 0.02)) as [[nx ny] Hn];
    [rewrite Hmt; exact Hv |].
  destruct (update_commits mp nx ny Hn)
    as (mp' & Hu & Hx & Hy & Hvel & Ht & _ & Hsame).
  exists mp'. rewrite Hx, Hy, Ht.
  split; [exact Hu |]. split; [reflexivity |]. split; [exact Hvel |].
  split; [exact Hn |]. split.
  - rewrite <- new_position_init.
    rewrite (new_position_parameters _ mp _ Hp). exact Hn.
  - apply (same_parameters_trans _ mp); [exact Hp | exact Hsame].
Qed.

End MovingPlatformFacts.

Section CircularOrbit.
Import MatrixMath MovingPlatform.

Lemma sqrt_scaled_unit (r c s : R) :
  0 <= r -> c * c + s * s = 1 -> sqrt ((r * c) * (r * c) + (r * s) * (r * s)) = r.
Proof.
  intros Hr Hu.
  replace ((r * c) * (r * c) + (r * s) * (r * s)) with (r * r * (c * c + s * s))
    by ring.
  rewrite Hu, Rmult_1_r. apply sqrt_square, Hr.
Qed.

Lemma cos_sin_unit (a : R) : cos a * cos a + sin a * sin a = 1.
Proof.
  pose proof (sin2_cos2 a) as H. unfold Rsqr in H. lra.
Qed.

(** The position computed for a circular platform lies on the orbit. *)
Lemma circular_new_position (mp : MovingPlatform.t) (t : R) :
  move_type mp = "circular"%string -> (0 <= radius mp)%Z ->
  exists p, new_position mp t = Some p /\ orbit_distance p mp = IZR (radius mp).
Proof.
  intros Hm Hr. unfold new_position. rewrite Hm. simpl.
  eexists; split; [reflexivity |].
  unfold orbit_distance, center_point, apply_transformation; simpl.
  set (a := t * speed mp). set (r := IZR (radius mp)).
  set (hw := IZR (width mp / 2)). set (hh := IZR (height mp / 2)).
  set (cx := IZR (center_x mp)). set (cy := IZR (center_y mp)).
  replace (cx + (cos a * r + - sin a * 0 + 0 * 1) - hw + hw - cx)
    with (r * cos a) by ring.
  replace (cy + (sin a * r + cos a * 0 + 0 * 1) - hh + hh - cy)
    with (r * sin a) by ring.
  apply sqrt_scaled_unit; [apply IZR_le, Hr | apply cos_sin_unit].
Qed.

Lemma orbit_distance_parameters (a b : MovingPlatform.t) (p : Point) :
  same_parameters a b -> orbit_distance p a = orbit_distance p b.
Proof.
  intros (Hw & Hh & _ & _ & _ & _ & Hcx & Hcy & _).
  unfold orbit_distance, center_point. rewrite Hw, Hh, Hcx, Hcy. reflexivity.
Qed.

Lemma circular_update (mp : MovingPlatform.t) :
  move_type mp = "circular"%string -> (0 <= radius mp)%Z ->
  exists mp',
    update mp = Some mp' /\ same_parameters mp mp' /\
    time mp' = time mp + 0.02 /\
    orbit_distance (x mp', y mp') mp' = IZR (radius mp').
Proof.
  intros Hm Hr.
  destruct (circular_new_position mp (time mp + 0.02) Hm Hr)
    as ([nx ny] & Hn & Hd).
  destruct (update_commits mp nx ny Hn)
    as (mp' & Hu & Hx & Hy & _ & Ht & _ & Hsame).
  exists mp'. rewrite Hx, Hy.
  split; [exact Hu |]. split; [exact Hsame |]. split; [exact Ht |].
  rewrite <- (orbit_distance_parameters mp mp' _ Hsame), Hd.
  f_equal. apply Hsame.
Qed.

Lemma circular_updates (n : nat) :
  forall mp, move_type mp = "circular"%string -> (0 <= radius mp)%Z ->
  exists mp',
    updates (S n) mp = Some mp' /\ same_parameters mp mp' /\
    time mp' = time mp + INR (S n) * 0.02 /\
    orbit_distance (x mp', y mp') mp' = IZR (radius mp').
Proof.
  induction n as [| n IH]; intros mp Hm Hr.
  - destruct (circular_update mp Hm Hr) as (mp' & Hu & Hs & Ht & Hd).
    exists mp'. simpl. rewrite Hu.
    split; [reflexivity |]. split; [exact Hs |]. split; [| exact Hd].
    rewrite Ht. lra.
  - destruct (circular_update mp Hm Hr) as (mp1 & Hu & Hs & Ht & _).
    assert (Hm1 : move_type mp1 = "circular"%string)
      by (rewrite <- Hm; symmetry; apply Hs).
    assert (Hr1 : (0 <= radius mp1)%Z)
      by (replace (radius mp1) with (radius mp); [exact Hr | apply Hs]).
    destruct (IH mp1 Hm1 Hr1) as (mp' & Hus & Hs' & Ht' & Hd).
    exists mp'. change (updates (S (S n)) mp) with
      (match update mp with None => None | Some m => updates (S n) m end).
    rewrite Hu.
    split; [exact Hus |].
    split; [apply (same_parameters_trans _ mp1); assumption |].
    split; [| exact Hd].
    rewrite Ht', Ht. rewrite (S_INR (S n)). lra.
Qed.

(** The constructor leaves every platform, whatever its kind, with its
    centre point on [(center_x, center_y)]. *)
Lemma constructor_centre (x0 y0 w h : Z) (mt : string) (sp : R) (d : Z) :
  time (init x0 y0 w h mt sp d) = 0 /\
  orbit_distance (x (init x0 y0 w h mt sp d), y (init x0 y0 w h mt sp d))
                 (init x0 y0 w h mt sp d) = 0.
Proof.
  split; [reflexivity |].
  unfold orbit_distance, center_point; simpl.
  rewrite !plus_IZR.
  replace (IZR x0 + IZR (w / 2) - (IZR x0 + IZR (w / 2))) with 0 by ring.
  replace (IZR y0 + IZR (h / 2) - (IZR y0 + IZR (h / 2))) with 0 by ring.
  replace (0 * 0 + 0 * 0) with 0 by ring. apply sqrt_0.
Qed.

(** C8, as amended. For a circular platform built with a non-negative
    [distance], the position computed for any time [t], and the position
    held after any positive number of updates, put the platform's centre
    point at distance exactly the orbit radius [distance // 2] from the
    orbit centre.  Before the first update, at time 0, the platform is
    where the constructor put it: its centre point is the orbit centre
    itself. *)
Theorem circular_orbit_radius (x0 y0 w h : Z) (sp : R) (d : Z) :
  (0 <= d)%Z ->
  let mp0 := init x0 y0 w h "circular" sp d in
  (forall t, exists p,
      new_position mp0 t = Some p /\ orbit_distance p mp0 = IZR (d / 2)) /\
  (forall n, exists mp,
      updates (S n) mp0 = Some mp /\
      time mp = INR (S n) * 0.02 /\
      center_x mp = (x0 + w / 2)%Z /\ center_y mp = (y0 + h / 2)%Z /\
      orbit_distance (x mp, y mp) mp = IZR (d / 2)) /\
  (time mp0 = 0 /\ orbit_distance (x mp0, y mp0) mp0 = 0).
Proof.
  intros Hd mp0.
  assert (Hr : (0 <= radius mp0)%Z) by (simpl; apply Z.div_pos; lia).
  split; [| split; [| apply constructor_centre]].
  - intro t. apply (circular_new_position mp0 t eq_refl Hr).
  - intro n.
    destruct (circular_updates n mp0 eq_refl Hr) as (mp & Hu & Hs & Ht & Ho).
    exists mp. split; [exact Hu |].
    split; [rewrite Ht; simpl time; lra |].
    destruct Hs as (_ & _ & _ & _ & _ & _ & Hcx & Hcy & Hrad).
    split; [symmetry; exact Hcx |]. split; [symmetry; exact Hcy |].
    rewrite Ho, <- Hrad. reflexivity.
Qed.

(** C8 fails as stated at accumulated time 0: the circular platform of
    level 1, fresh from the constructor (the state the first frame's
    collision pass meets), has its centre point on the orbit centre, at
    distance 0 and not at the orbit radius 50. *)
Lemma circular_platform_starts_at_centre :
  move_type orbiting_carrier = "circular"%string /\
  time orbiting_carrier = 0 /\
  orbit_distance (x orbiting_carrier, y orbiting_carrier) orbiting_carrier = 0 /\
  IZR (radius orbiting_carrier) = 50 /\
  orbit_distance (x orbiting_carrier, y orbiting_carrier) orbiting_carrier
    <> IZR (radius orbiting_carrier).
Proof.
  destruct (constructor_centre 1500 300 90 20 "circular" 0.8 100) as [Ht Hd].
  fold orbiting_carrier in Ht, Hd.
  assert (Hr : IZR (radius orbiting_carrier) = 50) by reflexivity.
  split; [reflexivity |]. split; [exact Ht |]. split; [exact Hd |].
  split; [exact Hr |]. rewrite Hd, Hr. lra.
Qed.

End CircularOrbit.

Section CollisionFrame.
Import MatrixMath Ball.

Lemma same_but_motion_refl (a : Ball.t) : same_but_motion a a.
Proof. unfold same_but_motion; repeat split; reflexivity. Qed.

Lemma same_but_motion_trans (a b c : Ball.t) :
  same_but_motion a b -> same_but_motion b c -> same_but_motion a c.
Proof. unfold same_but_motion; intuition congruence. Qed.

Ltac case_split :=
  repeat match goal with
  | |- context [if ?c then _ else _] => destruct c
  | |- context [match ?p with Static _ => _ | Moving _ => _ end] => destruct p
  end.

Lemma resolve_motion_only (b : Ball.t) (platform : AnyPlatform) :
  same_but_motion b (resolve b platform).
Proof.
  unfold resolve. case_split; unfold same_but_motion; simpl;
    repeat split; reflexivity.
Qed.

Lemma fast_platform_check_motion_only (b : Ball.t) (platform : AnyPlatform) :
  same_but_motion b (fast_platform_check b platform).
Proof.
  unfold fast_platform_check. case_split; unfold same_but_motion; simpl;
    repeat split; reflexivity.
Qed.

Lemma collision_step_motion_only (b : Ball.t) (r : Rect.t) (platform : AnyPlatform) :
  same_but_motion b (fst (collision_step (b, r) platform)).
Proof.
  unfold collision_step.
  destruct (Rect.colliderect r (platform_rect platform)); simpl.
  - apply (same_but_motion_trans _ (resolve b platform)).
    + apply resolve_motion_only.
    + apply fast_platform_check_motion_only.
  - apply same_but_motion_refl.
Qed.

Lemma collision_fold_motion_only (platforms : list AnyPlatform) :
  forall b r,
    same_but_motion b (fst (fold_left collision_step platforms (b, r))).
Proof.
  induction platforms as [| p ps IH]; intros b r; cbn [fold_left].
  - apply same_but_motion_refl.
  - pose proof (collision_step_motion_only b r p) as Hstep.
    destruct (collision_step (b, r) p) as [b1 r1].
    apply (same_but_motion_trans _ b1); [exact Hstep | apply IH].
Qed.

Lemma handle_platform_collision_motion_only (b : Ball.t)
    (platforms : list AnyPlatform) :
  same_but_motion b (handle_platform_collision b platforms).
Proof. apply collision_fold_motion_only. Qed.

(** C10. For every platform list, the ball returned by
    [handle_platform_collision] has the lives, radius, base radius, scale
    factor, scale timer and rotation (and the constants) it had; and the
    collision pass of the game leaves every platform, static or moving,
    as it was. *)
Theorem collision_pass_frame (b : Ball.t) (platforms : list AnyPlatform)
    (g : Game.t) :
  let b' := handle_platform_collision b platforms in
  lives b' = lives b /\ radius b' = radius b /\
  base_radius b' = base_radius b /\ scale_factor b' = scale_factor b /\
  scale_timer b' = scale_timer b /\ rotation b' = rotation b /\
  original_pos b' = original_pos b /\
  Game.platforms (Game.collide g) = Game.platforms g /\
  Game.moving_platforms (Game.collide g) = Game.moving_platforms g /\
  Game.all_platforms (Game.collide g) = Game.all_platforms g.
Proof.
  intro b'.
  pose proof (handle_platform_collision_motion_only b platforms) as H.
  fold b' in H. unfold same_but_motion in H.
  repeat split; try (symmetry; apply H).
Qed.

End CollisionFrame.

Section BallScale.
Import MatrixMath Ball.

Ltac split_ifs :=
  repeat match goal with
  | |- context [if ?c then _ else _] => destruct c eqn:?
  end.

Lemma apply_powerup_grow (b : Ball.t) :
  let g := apply_powerup b "grow" in
  scale_factor g = 2.0 /\ scale_timer g = 300%Z /\
  lives g = (if (lives b <? 2)%Z then (lives b + 1)%Z else lives b) /\
  base_radius g = base_radius b /\ radius g = radius b.
Proof.
  unfold apply_powerup; simpl. destruct (lives b <? 2)%Z; simpl; tauto.
Qed.

Lemma apply_powerup_other (b : Ball.t) (s : string) :
  (s =? "grow")%string = false ->
  let k := apply_powerup b s in
  scale_factor k = 0.5 /\ scale_timer k = 300%Z /\
  lives k = (lives b - 1)%Z /\
  base_radius k = base_radius b /\ radius k = radius b.
Proof.
  intros Hs. unfold apply_powerup. rewrite Hs. simpl. tauto.
Qed.

Lemma update_scale (b : Ball.t) :
  let u := Ball.update b in
  scale_factor u = fst (tick (scale_state b)) /\
  scale_timer u = snd (tick (scale_state b)) /\
  base_radius u = base_radius b /\
  lives u = lives b /\
  radius u =
    Rabs (fst (apply_transformation
                 (create_scale_matrix (scale_factor u) (scale_factor u))
                 (base_radius u, 0))).
Proof.
  unfold Ball.update, scale_state, tick.
  destruct (0 <? scale_timer b)%Z; simpl;
    [destruct (scale_timer b - 1 =? 0)%Z; simpl |];
    destruct (on_ground b); simpl; split_ifs; simpl;
    repeat split; reflexivity.
Qed.

Lemma update_scale_state (b : Ball.t) :
  scale_state (Ball.update b) = tick (scale_state b).
Proof.
  destruct (update_scale b) as (Hf & Ht & _).
  unfold scale_state at 1. rewrite Hf, Ht.
  symmetry. apply surjective_pairing.
Qed.

Lemma ball_inv_init (x y : R) : ball_inv (Ball.init x y).
Proof. unfold ball_inv; simpl. split; [reflexivity | split; [lra | lia]]. Qed.

Lemma ball_inv_motion (a b : Ball.t) :
  same_but_motion a b -> ball_inv a -> ball_inv b.
Proof.
  unfold same_but_motion, ball_inv.
  intros (_ & Hb & _ & Hs & _ & _ & Hl & _) (H1 & H2 & H3).
  rewrite <- Hb, <- Hs, <- Hl. tauto.
Qed.

Lemma ball_inv_exec (b : Ball.t) (o : ball_op) :
  ball_inv b -> ball_inv (ball_exec b o).
Proof.
  intros Hinv. pose proof Hinv as (Hb & Hs & Hl).
  destruct o as [s | | | | | ps |]; simpl.
  - destruct (s =? "grow")%string eqn:Es.
    + apply String.eqb_eq in Es. subst s.
      destruct (apply_powerup_grow b) as (Hf & _ & Hlv & Hbr & _).
      unfold ball_inv. rewrite Hf, Hlv, Hbr.
      split; [exact Hb | split; [lra |]].
      destruct (lives b <? 2)%Z eqn:E; [apply Z.ltb_lt in E |]; lia.
    + destruct (apply_powerup_other b s Es) as (Hf & _ & Hlv & Hbr & _).
      unfold ball_inv. rewrite Hf, Hlv, Hbr.
      split; [exact Hb | split; [lra | lia]].
  - destruct (update_scale b) as (Hf & _ & Hbr & Hlv & _).
    unfold ball_inv. rewrite Hbr, Hlv, Hf.
    split; [exact Hb | split; [| exact Hl]].
    unfold scale_state, tick.
    destruct (0 <? scale_timer b)%Z;
      [destruct (scale_timer b - 1 =? 0)%Z |]; cbn [fst];
      try exact Hs.
    right; left; reflexivity.
  - unfold move_left, ball_inv; simpl; tauto.
  - unfold move_right, ball_inv; simpl; tauto.
  - unfold jump. destruct (on_ground b); [unfold ball_inv; simpl; tauto | exact Hinv].
  - apply (ball_inv_motion b); [apply handle_platform_collision_motion_only | exact Hinv].
  - unfold Game.respawn, ball_inv; simpl. split; [exact Hb | split; [exact Hs | lia]].
Qed.

Lemma ball_inv_run (ops : list ball_op) :
  forall b, ball_inv b -> ball_inv (ball_run b ops).
Proof.
  induction ops as [| o ops IH]; intros b Hb; simpl; [exact Hb |].
  apply IH, ball_inv_exec, Hb.
Qed.

(** C6. A grow power-up sets the scale factor to 2.0 and gives one life
    back only when fewer than 2 are left; a shrink power-up sets the scale
    factor to 0.5 and takes one life; both set the scale timer to 300.
    From a new ball on, whatever is done to it, lives never exceed 2. *)
Theorem powerup_effects (b : Ball.t) (x y : R) (ops : list ball_op) :
  let g := apply_powerup b "grow" in
  let s := apply_powerup b "shrink" in
  scale_factor g = 2.0 /\ scale_timer g = 300%Z /\
  lives g = (if (lives b <? 2)%Z then (lives b + 1)%Z else lives b) /\
  (lives g <= Z.max 2 (lives b))%Z /\
  scale_factor s = 0.5 /\ scale_timer s = 300%Z /\
  lives s = (lives b - 1)%Z /\
  lives (Ball.init x y) = 2%Z /\
  (lives (ball_run (Ball.init x y) ops) <= 2)%Z.
Proof.
  intros g s.
  destruct (apply_powerup_grow b) as (Hgf & Hgt & Hgl & _).
  destruct (apply_powerup_other b "shrink" eq_refl) as (Hsf & Hst & Hsl & _).
  fold g in Hgf, Hgt, Hgl. fold s in Hsf, Hst, Hsl.
  repeat (split; [assumption |]).
  split.
  - rewrite Hgl. destruct (lives b <? 2)%Z eqn:E; [apply Z.ltb_lt in E |]; lia.
  - repeat (split; [assumption |]).
    split; [reflexivity |].
    apply (ball_inv_run ops _ (ball_inv_init x y)).
Qed.

End BallScale.

Section ScaleTimer.
Import MatrixMath Ball.

Lemma ball_run_app (b : Ball.t) (ops1 ops2 : list ball_op) :
  ball_run b (ops1 ++ ops2) = ball_run (ball_run b ops1) ops2.
Proof. unfold ball_run. apply fold_left_app. Qed.

Lemma powerup_free_app (ops1 ops2 : list ball_op) :
  powerup_free (ops1 ++ ops2) = powerup_free ops1 && powerup_free ops2.
Proof. unfold powerup_free. apply forallb_app. Qed.

Lemma count_updates_app (ops1 ops2 : list ball_op) :
  count_updates (ops1 ++ ops2) = (count_updates ops1 + count_updates ops2)%nat.
Proof. unfold count_updates. rewrite filter_app, length_app. reflexivity. Qed.

(** The calls other than [update] and [apply_powerup] leave the scale
    fields and both radii alone. *)
Lemma other_ops_keep_scale (b : Ball.t) (o : ball_op) :
  is_powerup o = false -> is_update o = false ->
  scale_factor (ball_exec b o) = scale_factor b /\
  scale_timer (ball_exec b o) = scale_timer b /\
  base_radius (ball_exec b o) = base_radius b /\
  radius (ball_exec b o) = radius b.
Proof.
  intros Hp Hu.
  destruct o as [s | | | | | ps |]; try discriminate; cbn [ball_exec].
  - unfold move_left; simpl; tauto.
  - unfold move_right; simpl; tauto.
  - unfold jump; destruct (on_ground b); simpl; tauto.
  - pose proof (handle_platform_collision_motion_only b ps)
      as (_ & Hb & Hr & Hs & Ht & _).
    rewrite <- Hb, <- Hr, <- Hs, <- Ht. tauto.
  - unfold Game.respawn; simpl; tauto.
Qed.

Lemma run_scale_state (ops : list ball_op) (b : Ball.t) :
  powerup_free ops = true ->
  scale_state (ball_run b ops) = Nat.iter (count_updates ops) tick (scale_state b) /\
  base_radius (ball_run b ops) = base_radius b.
Proof.
  induction ops as [| o ops IH] using rev_ind; intros Hfree.
  - simpl; tauto.
  - rewrite powerup_free_app in Hfree. apply andb_prop in Hfree as [Hf1 Hf2].
    simpl in Hf2. rewrite andb_true_r in Hf2. apply negb_true_iff in Hf2.
    destruct (IH Hf1) as [IHs IHb].
    rewrite ball_run_app, count_updates_app. simpl ball_run.
    destruct (is_update o) eqn:Eu.
    + destruct o; try discriminate. cbn [ball_exec].
      destruct (update_scale (ball_run b ops)) as (_ & _ & Hb & _).
      rewrite update_scale_state, Hb, IHs. split; [| exact IHb].
      change (count_updates [BallUpdate]) with 1%nat.
      rewrite Nat.add_1_r. reflexivity.
    + destruct (other_ops_keep_scale (ball_run b ops) o Hf2 Eu)
        as (Hs & Ht & Hb & _).
      unfold scale_state at 1. rewrite Hs, Ht, Hb.
      fold (scale_state (ball_run b ops)). rewrite IHs.
      split; [| exact IHb].
      replace (count_updates [o]) with 0%nat
        by (unfold count_updates; cbn [filter]; rewrite Eu; reflexivity).
      rewrite Nat.add_0_r. reflexivity.
Qed.

Lemma run_radius (ops : list ball_op) (b : Ball.t) :
  powerup_free ops = true -> (1 <= count_updates ops)%nat ->
  radius (ball_run b ops) =
    Rabs (base_radius b * scale_factor (ball_run b ops)).
Proof.
  induction ops as [| o ops IH] using rev_ind; intros Hfree Hn.
  - unfold count_updates in Hn. simpl in Hn. lia.
  - rewrite powerup_free_app in Hfree. apply andb_prop in Hfree as [Hf1 Hf2].
    simpl in Hf2. rewrite andb_true_r in Hf2. apply negb_true_iff in Hf2.
    rewrite ball_run_app. simpl ball_run.
    destruct (is_update o) eqn:Eu.
    + destruct o; try discriminate. cbn [ball_exec].
      destruct (update_scale (ball_run b ops)) as (_ & _ & Hb & _ & Hr).
      rewrite Hr, Hb. destruct (run_scale_state ops b Hf1) as [_ Hb0].
      rewrite Hb0. unfold apply_transformation;
        cbn [fst snd dot_vec row_dot create_scale_matrix].
      f_equal. ring.
    + destruct (other_ops_keep_scale (ball_run b ops) o Hf2 Eu)
        as (Hsf & _ & _ & Hr).
      rewrite Hr, Hsf. apply IH; [exact Hf1 |].
      rewrite count_updates_app in Hn.
      replace (count_updates [o]) with 0%nat in Hn
        by (unfold count_updates; cbn [filter]; rewrite Eu; reflexivity).
      lia.
Qed.

Ltac z_cases :=
  repeat match goal with
  | |- context [(?a <? ?b)%Z] => destruct (Z.ltb_spec a b)
  | |- context [(?a <=? ?b)%Z] => destruct (Z.leb_spec a b)
  | |- context [(?a =? ?b)%Z] => destruct (Z.eqb_spec a b)
  end.

Lemma iter_tick (n : nat) (factor : R) (timer : Z) :
  (0 <= timer)%Z ->
  Nat.iter n tick (factor, timer) =
    (if ((0 <? timer) && (timer <=? Z.of_nat n))%Z then 1.0 else factor,
     Z.max 0 (timer - Z.of_nat n)).
Proof.
  intros Ht. induction n as [| n IH].
  - change (Nat.iter 0 tick (factor, timer)) with (factor, timer).
    change (Z.of_nat 0) with 0%Z.
    z_cases; cbn [andb]; first [exfalso; lia | f_equal; lia].
  - rewrite Nat.iter_succ, IH, Nat2Z.inj_succ.
    generalize (Z.of_nat n) (Nat2Z.is_nonneg n). intros m Hm.
    unfold tick.
    z_cases; cbn [andb];
      first [exfalso; lia | f_equal; first [reflexivity | lia]].
Qed.

(** C7. Take any ball the program can hold, apply a grow power-up and
    let the program run on without further power-ups.  While fewer than
    300 updates have run the scale factor stays 2.0; once 300 updates have
    run the scale timer is 0, the scale factor is 1.0 and the radius is the
    base radius.  The radius that each [update] leaves, the absolute value
    of the first coordinate of the scale matrix applied to
    [[base_radius, 0]], is [base_radius * scale_factor]. *)
Theorem grow_expires (x y : R) (ops0 ops : list ball_op) :
  powerup_free ops = true ->
  let b := ball_run (Ball.init x y) ops0 in
  let g := apply_powerup b "grow" in
  let b' := ball_run g ops in
  let u := Ball.update b in
  scale_factor g = 2.0 /\ scale_timer g = 300%Z /\
  ((count_updates ops < 300)%nat ->
     scale_factor b' = 2.0 /\
     scale_timer b' = (300 - Z.of_nat (count_updates ops))%Z) /\
  ((300 <= count_updates ops)%nat ->
     scale_timer b' = 0%Z /\ scale_factor b' = 1.0 /\
     radius b' = base_radius b') /\
  radius u =
    Rabs (fst (apply_transformation
                 (create_scale_matrix (scale_factor u) (scale_factor u))
                 (base_radius u, 0))) /\
  radius u = base_radius u * scale_factor u.
Proof.
  intros Hfree b g b' u.
  assert (Hb : ball_inv b) by (apply ball_inv_run, ball_inv_init).
  destruct (apply_powerup_grow b) as (Hgf & Hgt & _ & Hgb & _).
  fold g in Hgf, Hgt, Hgb.
  destruct (run_scale_state ops g Hfree) as [Hst Hbase]. fold b' in Hst, Hbase.
  unfold scale_state in Hst. rewrite Hgf, Hgt in Hst.
  rewrite iter_tick in Hst by lia.
  apply pair_equal_spec in Hst as [Hf Ht].
  change (0 <? 300)%Z with true in Hf. cbn [andb] in Hf.
  split; [exact Hgf |]. split; [exact Hgt |].
  split; [| split].
  - intros Hlt.
    assert (E : (300 <=? Z.of_nat (count_updates ops))%Z = false)
      by (apply Z.leb_gt; lia).
    rewrite Hf, Ht, E. split; [reflexivity | lia].
  - intros Hge.
    assert (E : (300 <=? Z.of_nat (count_updates ops))%Z = true)
      by (apply Z.leb_le; lia).
    assert (H1 : (1 <= count_updates ops)%nat) by lia.
    pose proof (run_radius ops g Hfree H1) as Hrad. fold b' in Hrad.
    rewrite Hrad, Hbase, Hgb, Hf, Ht, E.
    split; [lia | split; [reflexivity |]].
    destruct Hb as (H15 & _).
    rewrite H15. replace (15 * 1.0) with 15 by lra.
    apply Rabs_pos_eq. lra.
  - destruct (update_scale b) as (_ & _ & _ & _ & Hr). fold u in Hr.
    split; [exact Hr |].
    assert (Hu : ball_inv u) by (apply (ball_inv_exec b BallUpdate), Hb).
    destruct Hu as (H15 & Hs & _).
    rewrite Hr. unfold apply_transformation;
      cbn [fst snd dot_vec row_dot create_scale_matrix].
    replace (scale_factor u * base_radius u + 0 * 0 + 0 * 1)
      with (base_radius u * scale_factor u) by ring.
    apply Rabs_pos_eq. rewrite H15. destruct Hs as [Hs | [Hs | Hs]]; rewrite Hs; lra.
Qed.

End ScaleTimer.

Section Evaluation.

Lemma Int_part_IZR (z : Z) : Int_part (IZR z) = z.
Proof. symmetry. apply Int_part_spec. lra. Qed.

Lemma trunc_IZR (z : Z) : trunc (IZR z) = z.
Proof.
  unfold trunc. destruct (Rle_dec 0 (IZR z)).
  - apply Int_part_IZR.
  - rewrite <- opp_IZR, Int_part_IZR. lia.
Qed.

Lemma trunc_eq (r : R) (z : Z) : r = IZR z -> trunc r = z.
Proof. intros ->. apply trunc_IZR. Qed.

Lemma trunc_nonneg (r : R) (z : Z) :
  0 <= r -> IZR z <= r < IZR z + 1 -> trunc r = z.
Proof.
  intros H0 Hz. unfold trunc. destruct (Rle_dec 0 r); [| contradiction].
  symmetry. apply Int_part_spec. lra.
Qed.

Lemma round_nonneg (r : R) (z : Z) :
  0 <= r -> IZR z - 0.5 <= r < IZR z + 0.5 -> round_half_away r = z.
Proof.
  intros H0 Hz. unfold round_half_away. destruct (Rle_dec 0 r); [| contradiction].
  symmetry. apply Int_part_spec. lra.
Qed.

Lemma Rleb_true (a b : R) : a <= b -> Rleb a b = true.
Proof. intros H. unfold Rleb. destruct (Rle_dec a b); [reflexivity | contradiction]. Qed.

Lemma Rleb_false (a b : R) : b < a -> Rleb a b = false.
Proof. intros H. unfold Rleb. destruct (Rle_dec a b); [lra | reflexivity]. Qed.

Lemma Rltb_true (a b : R) : a < b -> Rltb a b = true.
Proof. intros H. unfold Rltb. destruct (Rlt_dec a b); [reflexivity | contradiction]. Qed.

Lemma Rltb_false (a b : R) : b <= a -> Rltb a b = false.
Proof. intros H. unfold Rltb. destruct (Rlt_dec a b); [lra | reflexivity]. Qed.

Lemma Reqb_true (a b : R) : a = b -> Reqb a b = true.
Proof. intros H. unfold Reqb. destruct (Req_dec_T a b); [reflexivity | contradiction]. Qed.

Lemma Reqb_false (a b : R) : a <> b -> Reqb a b = false.
Proof. intros H. unfold Reqb. destruct (Req_dec_T a b); [contradiction | reflexivity]. Qed.

Lemma bounding_rect_eq (p : MatrixMath.Point) (r : R) (x y w : Z) :
  fst p - r = IZR x -> snd p - r = IZR y -> r * 2 = IZR w ->
  Ball.bounding_rect p r = Rect.mk x y w w.
Proof.
  intros Hx Hy Hw. unfold Ball.bounding_rect, Rect.of_floats.
  rewrite (trunc_eq _ _ Hx), (trunc_eq _ _ Hy), (trunc_eq _ _ Hw). reflexivity.
Qed.

End Evaluation.

Section CollisionSteps.
Import MatrixMath Ball.

(** The ball as the landing branch leaves it on a static platform. *)
Lemma resolve_static_landing (b : Ball.t) (p : Platform.t) :
  top_is_min b (Platform.rect p) -> 0 <= snd (velocity b) ->
  resolve b (Static p) =
    set_on_ground
      (set_velocity
         (set_pos b (fst (pos b), IZR (Rect.top (Platform.rect p)) - radius b))
         (fst (velocity b), 0))
      true.
Proof.
  intros Hmin Hv. unfold resolve. cbn [platform_rect].
  unfold top_is_min, overlap_left, overlap_right, overlap_top, overlap_bottom in Hmin.
  rewrite (Reqb_true _ _ Hmin), (Rleb_true _ _ Hv). reflexivity.
Qed.

Lemma collision_step_miss (b : Ball.t) (r : Rect.t) (platform : AnyPlatform) :
  Rect.colliderect r (platform_rect platform) = false ->
  collision_step (b, r) platform = (b, r).
Proof. intros H. unfold collision_step. rewrite H. reflexivity. Qed.

Lemma collision_fold_miss (platforms : list AnyPlatform) (b : Ball.t) (r : Rect.t) :
  Forall (fun q => Rect.colliderect r (platform_rect q) = false) platforms ->
  fold_left collision_step platforms (b, r) = (b, r).
Proof.
  induction 1 as [| q qs Hq _ IH]; cbn [fold_left]; [reflexivity |].
  rewrite (collision_step_miss b r q Hq). exact IH.
Qed.

Lemma collision_step_static_landing (b : Ball.t) (r : Rect.t) (p : Platform.t) :
  Rect.colliderect r (Platform.rect p) = true ->
  top_is_min b (Platform.rect p) -> 0 <= snd (velocity b) ->
  collision_step (b, r) (Static p) =
    (resolve b (Static p),
     Rect.assign r (fst (pos b) - radius b)
                   (IZR (Rect.top (Platform.rect p)) - radius b - radius b)).
Proof.
  intros Hc Hmin Hv. unfold collision_step. cbn [platform_rect]. rewrite Hc.
  cbn [fast_platform_check].
  rewrite (resolve_static_landing b p Hmin Hv). reflexivity.
Qed.

(** C1, as amended. When the ball's pygame rectangle (the bounding square
    with corner and side truncated to integers) collides with a static
    platform's rectangle, the top overlap is the least of the four, the
    vertical velocity is not negative, and no other platform of the list
    is hit during the pass (none before it collides with the ball's
    rectangle, none after it collides with that rectangle as reassigned,
    and so rounded, from the landed position), the pass ends with the ball
    on the ground, its vertical velocity 0 and its vertical position the
    platform's top less the radius. *)
Theorem landing_on_static_platform (b : Ball.t) (p : Platform.t)
    (before after : list AnyPlatform) :
  let r := bounding_rect (pos b) (radius b) in
  Forall (fun q => Rect.colliderect r (platform_rect q) = false) before ->
  Rect.colliderect r (Platform.rect p) = true ->
  top_is_min b (Platform.rect p) ->
  0 <= snd (velocity b) ->
  Forall (fun q => Rect.colliderect (rect_after_landing b (Platform.rect p))
                     (platform_rect q) = false) after ->
  let b' := handle_platform_collision b (before ++ Static p :: after) in
  on_ground b' = true /\
  snd (velocity b') = 0 /\
  snd (pos b') = IZR (Rect.top (Platform.rect p)) - radius b' /\
  snd (pos b') + radius b' = IZR (Rect.top (Platform.rect p)).
Proof.
  intros r Hbefore Hc Hmin Hv Hafter b'.
  assert (Hb' : b' = resolve b (Static p)).
  { subst b'. unfold handle_platform_collision. fold r.
    rewrite fold_left_app, (collision_fold_miss before b r Hbefore).
    cbn [fold_left].
    rewrite (collision_step_static_landing b r p Hc Hmin Hv).
    unfold rect_after_landing in Hafter. fold r in Hafter.
    rewrite (collision_fold_miss after _ _ Hafter). reflexivity. }
  rewrite Hb', (resolve_static_landing b p Hmin Hv). simpl.
  repeat split; try reflexivity. ring.
Qed.

End CollisionSteps.

Section LandingExamples.
Import MatrixMath Ball.

Lemma min4_le (a b c d m : R) :
  (m = a \/ m = b \/ m = c \/ m = d) -> m <= a -> m <= b -> m <= c -> m <= d ->
  min4 a b c d = m.
Proof.
  intros Hm Ha Hb Hc Hd. unfold min4, Rmin.
  repeat destruct (Rle_dec _ _); lra.
Qed.

Ltac zeval :=
  repeat match goal with
  | |- context [IZR ?z] =>
      lazymatch z with
      | Z0 => fail
      | Zpos _ => fail
      | Zneg _ => fail
      | _ =>
          let z' := eval vm_compute in z in
          lazymatch z' with
          | Z0 => change (IZR z) with (IZR z')
          | Zpos _ => change (IZR z) with (IZR z')
          | Zneg _ => change (IZR z) with (IZR z')
          end
      end
  end.

(** The ball as the branch for the underside of a static platform leaves
    it, when the landing branch does not apply. *)
Lemma resolve_static_underside (b : Ball.t) (p : Platform.t) :
  ~ top_is_min b (Platform.rect p) ->
  min4 (overlap_left b (Platform.rect p)) (overlap_right b (Platform.rect p))
       (overlap_top b (Platform.rect p)) (overlap_bottom b (Platform.rect p))
    = overlap_bottom b (Platform.rect p) ->
  snd (velocity b) <= 0 ->
  resolve b (Static p) =
    set_velocity
      (set_pos b (fst (pos b), IZR (Rect.bottom (Platform.rect p)) + radius b))
      (fst (velocity b), 0).
Proof.
  intros Htop Hmin Hv. unfold resolve. cbn [platform_rect].
  unfold top_is_min, overlap_left, overlap_right, overlap_top, overlap_bottom
    in Htop, Hmin.
  rewrite (Reqb_false _ _ Htop), (Reqb_true _ _ Hmin), (Rleb_true _ _ Hv).
  reflexivity.
Qed.

(** A ball that lands on a first platform, and whose rectangle then also
    overlaps a second platform from below, is moved again by the second
    one.  Ball at (50, 90) with radius 15 falling at 1 per frame;
    platforms (0, 100, 200, 50) and (0, 60, 200, 12). *)
Lemma landing_undone_by_next_platform :
  Rect.colliderect (bounding_rect (pos falling_ball) (radius falling_ball))
                   (Platform.rect ledge) = true /\
  top_is_min falling_ball (Platform.rect ledge) /\
  0 <= snd (velocity falling_ball) /\
  on_ground (handle_platform_collision falling_ball [Static ledge; Static shelf])
    = true /\
  snd (pos (handle_platform_collision falling_ball [Static ledge; Static shelf]))
    = 87 /\
  snd (pos (handle_platform_collision falling_ball [Static ledge; Static shelf]))
    <> IZR (Rect.top (Platform.rect ledge))
       - radius (handle_platform_collision falling_ball
                   [Static ledge; Static shelf]).
Proof.
  set (b := falling_ball). set (p := ledge). set (q := shelf).
  set (r := bounding_rect (pos b) (radius b)).
  set (b' := handle_platform_collision b [Static p; Static q]).
  unfold falling_ball in b. unfold ledge in p. unfold shelf in q.
  assert (Hr : r = Rect.mk 35 75 30 30).
  { unfold r, b. apply bounding_rect_eq; simpl; lra. }
  assert (Hc : Rect.colliderect r (Platform.rect p) = true)
    by (rewrite Hr; reflexivity).
  assert (Hmin : top_is_min b (Platform.rect p)).
  { unfold top_is_min, overlap_left, overlap_right, overlap_top, overlap_bottom.
    unfold b, p. simpl. zeval. apply min4_le; lra. }
  assert (Hv : 0 <= snd (velocity b)) by (unfold b; simpl; lra).
  assert (Hb' : b' = resolve (resolve b (Static p)) (Static q)).
  { subst b'. unfold handle_platform_collision. fold r. cbn [fold_left].
    rewrite (collision_step_static_landing b r p Hc Hmin Hv).
    rewrite Hr.
    unfold Rect.assign.
    rewrite (round_nonneg _ 35), (round_nonneg _ 70)
      by (unfold b, p; simpl; zeval; lra).
    unfold collision_step. cbn [platform_rect].
    change (Rect.colliderect _ (Platform.rect q)) with true.
    cbn [fast_platform_check fst]. reflexivity. }
  assert (Hl : resolve b (Static p) =
               set_on_ground
                 (set_velocity (set_pos b (50, 100 - 15)) (0, 0)) true).
  { rewrite (resolve_static_landing b p Hmin Hv). reflexivity. }
  assert (Hu : b' = set_velocity
                      (set_pos (resolve b (Static p)) (50, 72 + 15)) (0, 0)).
  { rewrite Hb'. rewrite (resolve_static_underside (resolve b (Static p)) q).
    - rewrite Hl. unfold q. simpl. zeval. reflexivity.
    - rewrite Hl. unfold top_is_min, overlap_left, overlap_right,
        overlap_top, overlap_bottom, q. simpl. zeval.
      rewrite (min4_le _ _ _ _ (72 - (100 - 15 - 15))); lra.
    - rewrite Hl. unfold overlap_left, overlap_right,
        overlap_top, overlap_bottom, q. simpl. zeval.
      apply min4_le; lra.
    - rewrite Hl. simpl. lra. }
  split; [exact Hc |]. split; [exact Hmin |]. split; [exact Hv |].
  rewrite Hu, Hl. simpl. zeval.
  split; [reflexivity |]. split; lra.
Qed.

Lemma bounding_rect_trunc (p : Point) (r : R) (x y w : Z) :
  trunc (fst p - r) = x -> trunc (snd p - r) = y -> trunc (r * 2) = w ->
  bounding_rect p r = Rect.mk x y w w.
Proof.
  intros Hx Hy Hw. unfold bounding_rect, Rect.of_floats.
  rewrite Hx, Hy, Hw. reflexivity.
Qed.

(** A ball whose bounding square reaches half a unit into a platform from
    above is not landed: its rectangle, truncated to integers, ends at the
    platform's top and does not collide. *)
Lemma grazing_ball_is_not_landed :
  squares_overlap grazing_ball (Platform.rect ledge) /\
  top_is_min grazing_ball (Platform.rect ledge) /\
  0 <= snd (velocity grazing_ball) /\
  handle_platform_collision grazing_ball [Static ledge] = grazing_ball /\
  on_ground (handle_platform_collision grazing_ball [Static ledge]) = false.
Proof.
  assert (Hr : bounding_rect (pos grazing_ball) (radius grazing_ball)
               = Rect.mk 35 70 30 30).
  { unfold grazing_ball. apply bounding_rect_trunc.
    - apply trunc_eq. simpl. lra.
    - apply trunc_nonneg; simpl; lra.
    - apply trunc_eq. simpl. lra. }
  assert (Hsame : handle_platform_collision grazing_ball [Static ledge]
                  = grazing_ball).
  { unfold handle_platform_collision. rewrite Hr.
    rewrite collision_fold_miss; [reflexivity |].
    constructor; [reflexivity | constructor]. }
  split.
  { unfold squares_overlap, grazing_ball, ledge. simpl. zeval. lra. }
  split.
  { unfold top_is_min, overlap_left, overlap_right, overlap_top,
      overlap_bottom, grazing_ball, ledge. simpl. zeval. apply min4_le; lra. }
  split; [unfold grazing_ball; simpl; lra |].
  split; [exact Hsame |].
  rewrite Hsame. reflexivity.
Qed.

(** C1 fails as stated, in two ways.  A ball whose bounding square
    overlaps a platform by less than the truncation of its rectangle
    loses is not landed at all (ball at (50, 85.5), platform
    (0, 100, 200, 50)); and a ball that is landed on one platform can be
    moved again by a platform later in the list (ball at (50, 90),
    platforms (0, 100, 200, 50) and (0, 60, 200, 12)). *)
Lemma landing_claim_fails :
  (squares_overlap grazing_ball (Platform.rect ledge) /\
   top_is_min grazing_ball (Platform.rect ledge) /\
   0 <= snd (velocity grazing_ball) /\
   on_ground (handle_platform_collision grazing_ball [Static ledge]) = false) /\
  (squares_overlap falling_ball (Platform.rect ledge) /\
   top_is_min falling_ball (Platform.rect ledge) /\
   0 <= snd (velocity falling_ball) /\
   snd (pos (handle_platform_collision falling_ball [Static ledge; Static shelf]))
     = 87 /\
   snd (pos (handle_platform_collision falling_ball [Static ledge; Static shelf]))
     <> IZR (Rect.top (Platform.rect ledge))
        - radius (handle_platform_collision falling_ball
                    [Static ledge; Static shelf])).
Proof.
  destruct grazing_ball_is_not_landed as (G1 & G2 & G3 & _ & G4).
  destruct landing_undone_by_next_platform as (_ & F2 & F3 & _ & F5 & F6).
  split; [split; [exact G1 | split; [exact G2 | split; [exact G3 | exact G4]]] |].
  split.
  { unfold squares_overlap, falling_ball, ledge. simpl. zeval. lra. }
  split; [exact F2 |]. split; [exact F3 |]. split; [exact F5 | exact F6].
Qed.

Lemma landing_on_static_platform_witness :
  on_ground (handle_platform_collision drifting_ball
               ([Static shelf] ++ Static ledge :: [Static far_platform]))
    = true /\
  snd (velocity (handle_platform_collision drifting_ball
                   ([Static shelf] ++ Static ledge :: [Static far_platform])))
    = 0 /\
  snd (pos (handle_platform_collision drifting_ball
              ([Static shelf] ++ Static ledge :: [Static far_platform])))
    = IZR (Rect.top (Platform.rect ledge))
      - radius (handle_platform_collision drifting_ball
                  ([Static shelf] ++ Static ledge :: [Static far_platform])) /\
  snd (pos (handle_platform_collision drifting_ball
              ([Static shelf] ++ Static ledge :: [Static far_platform])))
    + radius (handle_platform_collision drifting_ball
                ([Static shelf] ++ Static ledge :: [Static far_platform]))
    = IZR (Rect.top (Platform.rect ledge)).
Proof.
  assert (Hr : bounding_rect (pos drifting_ball) (radius drifting_ball)
               = Rect.mk 35 75 30 30).
  { unfold drifting_ball. apply bounding_rect_trunc.
    - apply trunc_nonneg; simpl; lra.
    - apply trunc_eq. simpl. lra.
    - apply trunc_eq. simpl. lra. }
  apply (landing_on_static_platform drifting_ball ledge
           [Static shelf] [Static far_platform]).
  - rewrite Hr. constructor; [reflexivity | constructor].
  - rewrite Hr. reflexivity.
  - unfold top_is_min, overlap_left, overlap_right, overlap_top,
      overlap_bottom, drifting_ball, ledge. simpl. zeval. apply min4_le; lra.
  - unfold drifting_ball. simpl. lra.
  - unfold rect_after_landing. rewrite Hr. unfold Rect.assign.
    rewrite (round_nonneg _ 36), (round_nonneg _ 70)
      by (unfold drifting_ball, ledge; simpl; zeval; lra).
    constructor; [reflexivity | constructor].
Defined.

End LandingExamples.

Section LevelAdvance.
Import Game.

Lemma check_flag_advance (r : Rect.t) (g : Game.t) :
  Flag.collected (flag g) = false ->
  Rect.colliderect r (flag_rect (flag g)) = true ->
  (current_level g < max_level g)%Z ->
  check_flag r g =
    set_camera
      (build_level (width g) (height g) (current_level g + 1) (max_level g))
      (Camera.add_screen_shake (Camera.init (width g) (height g)) 8 45).
Proof.
  intros Hf Hc Hl. unfold check_flag. rewrite Hf. cbn [negb]. rewrite Hc.
  cbn [current_level max_level set_camera set_score set_level_complete set_flag].
  apply Z.ltb_lt in Hl. rewrite Hl. reflexivity.
Qed.

(** C9. When the ball's rectangle meets the flag's and a further level
    exists, [check_collisions] leaves the next level freshly built: score
    0 whatever it was, a new ball with 2 lives at the start position, the
    level counter advanced by one and the completion flag cleared. *)
Theorem flag_resets_score_and_lives (g : Game.t) :
  Flag.collected (flag g) = false ->
  Rect.colliderect
    (Ball.bounding_rect (Ball.pos (ball g)) (Ball.radius (ball g)))
    (flag_rect (flag g)) = true ->
  (current_level g < max_level g)%Z ->
  score (check_collisions g) = 0%Z /\
  ball (check_collisions g) = Ball.init 100 400 /\
  Ball.lives (ball (check_collisions g)) = 2%Z /\
  current_level (check_collisions g) = (current_level g + 1)%Z /\
  level_complete (check_collisions g) = false /\
  coins (check_collisions g) = create_coins (current_level g + 1) /\
  powerups (check_collisions g) = create_powerups (current_level g + 1) /\
  platforms (check_collisions g) = create_platforms (current_level g + 1) /\
  moving_platforms (check_collisions g) =
    create_moving_platforms (current_level g + 1).
Proof.
  intros Hf Hc Hl. unfold check_collisions.
  destruct (collect_coins _ (coins g) (score g) (camera g)) as [[cs sc] cam].
  cbn [powerups ball camera set_camera set_score set_coins].
  destruct (collect_powerups _ (Game.powerups g) (Game.ball g) cam)
    as [[ps b] cam'].
  rewrite check_flag_advance; [| exact Hf | exact Hc | exact Hl].
  cbn [width height current_level max_level set_camera set_ball set_powerups].
  repeat split; reflexivity.
Qed.

Lemma flag_resets_score_and_lives_witness :
  score game_at_flag = 50%Z /\
  score (check_collisions game_at_flag) = 0%Z /\
  ball (check_collisions game_at_flag) = Ball.init 100 400 /\
  Ball.lives (ball (check_collisions game_at_flag)) = 2%Z /\
  current_level (check_collisions game_at_flag) = (current_level game_at_flag + 1)%Z /\
  level_complete (check_collisions game_at_flag) = false /\
  coins (check_collisions game_at_flag) = create_coins (current_level game_at_flag + 1) /\
  powerups (check_collisions game_at_flag) = create_powerups (current_level game_at_flag + 1) /\
  platforms (check_collisions game_at_flag) = create_platforms (current_level game_at_flag + 1) /\
  moving_platforms (check_collisions game_at_flag) =
    create_moving_platforms (current_level game_at_flag + 1).
Proof.
  split; [reflexivity |].
  apply (flag_resets_score_and_lives game_at_flag).
  - reflexivity.
  - unfold game_at_flag.
    cbn [ball Game.set_score Game.set_ball Ball.pos Ball.radius Ball.set_pos Ball.init].
    rewrite (bounding_rect_eq _ _ 1835 385 30) by (simpl; lra).
    reflexivity.
  - reflexivity.
Defined.

End LevelAdvance.

Section LostLife.
Import Game.

Lemma collect_coins_miss (r : Rect.t) (cs : list Coin.t) (sc : Z) (cam : Camera.t) :
  Forall (fun c => negb (Coin.collected c) && Rect.colliderect r (coin_rect c) = false) cs ->
  collect_coins r cs sc cam = (cs, sc, cam).
Proof.
  induction 1 as [| c cs Hc _ IH]; cbn [collect_coins]; [reflexivity |].
  rewrite Hc, IH. reflexivity.
Qed.

Lemma collect_powerups_miss (r : Rect.t) (ps : list PowerUp.t) (b : Ball.t)
    (cam : Camera.t) :
  Forall (fun p => negb (PowerUp.collected p)
                   && Rect.colliderect r (powerup_rect p) = false) ps ->
  collect_powerups r ps b cam = (ps, b, cam).
Proof.
  induction 1 as [| p ps Hp _ IH]; cbn [collect_powerups]; [reflexivity |].
  rewrite Hp, IH. reflexivity.
Qed.

Lemma check_flag_miss (r : Rect.t) (g : Game.t) :
  Rect.colliderect r (flag_rect (flag g)) = false -> check_flag r g = g.
Proof.
  intros H. unfold check_flag. rewrite H.
  destruct (negb (Flag.collected (flag g))); reflexivity.
Qed.

Lemma update_platforms_total (ms : list MovingPlatform.t) :
  Forall (fun m => valid_move_type (MovingPlatform.move_type m)) ms ->
  exists ms', update_platforms ms = Some ms'.
Proof.
  induction 1 as [| m ms Hm _ [ms' IH]]; cbn [update_platforms].
  - eexists; reflexivity.
  - destruct (new_position_total m (MovingPlatform.time m + 0.02) Hm)
      as [[nx ny] Hn].
    destruct (update_commits m nx ny Hn) as (m' & Hu & _).
    rewrite Hu, IH. eexists; reflexivity.
Qed.

(** The ball at rest stays where it is under [Ball.update]. *)
Lemma update_ball_on_powerup :
  Ball.update ball_on_powerup =
    Ball.set_on_ground ball_on_powerup false.
Proof.
  unfold Ball.update, ball_on_powerup. simpl.
  rewrite Rltb_false by (rewrite Rmult_0_l, Rabs_R0; lra).
  unfold Ball.set_on_ground, Ball.set_pos. simpl.
  f_equal.
  - unfold MatrixMath.apply_transformation; simpl. apply point_eq; lra.
  - apply point_eq; lra.
  - replace (1.0 * 15 + 0 * 0 + 0 * 1) with 15 by lra.
    apply Rabs_pos_eq. lra.
Qed.

Lemma rect_of_ball_on_powerup :
  Ball.bounding_rect (Ball.pos ball_on_powerup) (Ball.radius ball_on_powerup)
  = Rect.mk 295 420 30 30.
Proof. apply bounding_rect_eq; simpl; lra. Qed.

(** C2 fails on the code.  In level 1, with one life left, 10 points and
    the ball resting on the shrink power-up at (300, 430), an iteration of
    the main loop with no pending event and no key held collects the
    power-up and ends with 0 lives, while the score is still 10 and the
    level is not rebuilt: the power-up stays in the list, marked
    collected, and the loop goes on. *)
Theorem no_reset_when_shrink_takes_last_life (u1 u2 : R) :
  exists g',
    iteration last_life_game (idle_input u1 u2) = Some (g', true) /\
    Ball.lives (ball last_life_game) = 1%Z /\
    Ball.lives (ball g') = 0%Z /\
    score g' = 10%Z /\
    powerups g' =
      PowerUp.collect (PowerUp.init 300 430 "shrink")
        :: tl (create_powerups 1) /\
    g' <> reset_level g'.
Proof.
  destruct (update_platforms_total (create_moving_platforms 1)) as [ms Hms].
  { repeat constructor; unfold valid_move_type; simpl; tauto. }
  set (b := Ball.set_on_ground ball_on_powerup false).
  set (r := Rect.mk 295 420 30 30).
  assert (Hcollide : Ball.handle_platform_collision b (all_platforms last_life_game) = b).
  { unfold Ball.handle_platform_collision.
    replace (Ball.bounding_rect (Ball.pos b) (Ball.radius b)) with r
      by (symmetry; apply rect_of_ball_on_powerup).
    rewrite collision_fold_miss; [reflexivity |].
    repeat constructor. }
  set (g3 := set_flag
               (set_coins (set_moving_platforms (set_ball last_life_game b) ms)
                          (map Coin.update (create_coins 1)))
               (Flag.update (Flag.init 1850 450))).
  set (g4 := set_camera
               (set_ball
                  (set_powerups g3
                     (PowerUp.collect (PowerUp.init 300 430 "shrink")
                        :: tl (create_powerups 1)))
                  (Ball.apply_powerup b "shrink"))
               (Camera.add_screen_shake (Camera.init 1000 600) 2 8)).
  assert (Hcheck : check_collisions g3 = g4).
  { unfold check_collisions.
    change (Ball.bounding_rect (Ball.pos (ball g3)) (Ball.radius (ball g3)))
      with (Ball.bounding_rect (Ball.pos ball_on_powerup)
                               (Ball.radius ball_on_powerup)).
    rewrite rect_of_ball_on_powerup. fold r.
    rewrite collect_coins_miss by (repeat constructor).
    cbn [powerups ball camera set_camera set_score set_coins].
    change (Game.powerups g3)
      with (PowerUp.init 300 430 "shrink" :: tl (create_powerups 1)).
    cbn [collect_powerups].
    change (negb (PowerUp.collected (PowerUp.init 300 430 "shrink"))
            && Rect.colliderect r (powerup_rect (PowerUp.init 300 430 "shrink")))
      with true.
    cbn iota.
    rewrite collect_powerups_miss by (repeat constructor).
    rewrite check_flag_miss by reflexivity.
    reflexivity. }
  exists (update_camera g4 u1 u2).
  split.
  - change (iteration last_life_game (idle_input u1 u2))
      with (match simulate last_life_game u1 u2 with
            | None => None
            | Some s => Some (s, true)
            end).
    unfold simulate.
    change (Ball.update (ball last_life_game)) with (Ball.update ball_on_powerup).
    rewrite update_ball_on_powerup. fold b.
    unfold collide.
    change (ball (set_ball last_life_game b)) with b.
    change (all_platforms (set_ball last_life_game b))
      with (all_platforms last_life_game).
    rewrite Hcollide.
    change (moving_platforms (set_ball (set_ball last_life_game b) b))
      with (create_moving_platforms 1).
    rewrite Hms.
    change (set_flag _ _) with g3.
    rewrite Hcheck.
    unfold check_fall.
    rewrite Rltb_false; [reflexivity |].
    simpl. lra.
  - split; [reflexivity |]. split; [reflexivity |]. split; [reflexivity |].
    split; [reflexivity |].
    intros H. apply (f_equal score) in H. discriminate H.
Qed.

End LostLife.

Section Witnesses.
Import MatrixMath.

Lemma update_velocity_and_position_witness :
  exists mp',
    MovingPlatform.update first_carrier = Some mp' /\
    MovingPlatform.time mp' = MovingPlatform.time first_carrier + 0.02 /\
    MovingPlatform.velocity mp' =
      (MovingPlatform.x mp' - MovingPlatform.x first_carrier,
       MovingPlatform.y mp' - MovingPlatform.y first_carrier) /\
    MovingPlatform.new_position first_carrier (MovingPlatform.time mp') =
      Some (MovingPlatform.x mp', MovingPlatform.y mp') /\
    position_at 800 400 100 20 "horizontal" 1.5 80 (MovingPlatform.time mp') =
      Some (MovingPlatform.x mp', MovingPlatform.y mp') /\
    same_parameters first_carrier mp'.
Proof.
  apply (update_velocity_and_position 800 400 100 20 "horizontal" 1.5 80
           first_carrier).
  - left. reflexivity.
  - unfold same_parameters, first_carrier. repeat split; reflexivity.
Defined.

Lemma circular_orbit_radius_witness :
  (forall t, exists p,
      MovingPlatform.new_position
        (MovingPlatform.init 1500 300 90 20 "circular" 0.8 100) t = Some p /\
      orbit_distance p (MovingPlatform.init 1500 300 90 20 "circular" 0.8 100)
        = IZR (100 / 2)) /\
  (forall n, exists mp,
      updates (S n) (MovingPlatform.init 1500 300 90 20 "circular" 0.8 100)
        = Some mp /\
      MovingPlatform.time mp = INR (S n) * 0.02 /\
      MovingPlatform.center_x mp = (1500 + 90 / 2)%Z /\
      MovingPlatform.center_y mp = (300 + 20 / 2)%Z /\
      orbit_distance (MovingPlatform.x mp, MovingPlatform.y mp) mp
        = IZR (100 / 2)) /\
  (MovingPlatform.time (MovingPlatform.init 1500 300 90 20 "circular" 0.8 100) = 0 /\
   orbit_distance
     (MovingPlatform.x (MovingPlatform.init 1500 300 90 20 "circular" 0.8 100),
      MovingPlatform.y (MovingPlatform.init 1500 300 90 20 "circular" 0.8 100))
     (MovingPlatform.init 1500 300 90 20 "circular" 0.8 100) = 0).
Proof.
  apply (circular_orbit_radius 1500 300 90 20 0.8 100). lia.
Defined.

Lemma grow_expires_witness :
  Ball.scale_factor (Ball.apply_powerup (Ball.init 100 400) "grow") = 2.0 /\
  Ball.scale_timer
    (ball_run (Ball.apply_powerup (Ball.init 100 400) "grow")
              three_hundred_updates) = 0%Z /\
  Ball.scale_factor
    (ball_run (Ball.apply_powerup (Ball.init 100 400) "grow")
              three_hundred_updates) = 1.0 /\
  Ball.radius
    (ball_run (Ball.apply_powerup (Ball.init 100 400) "grow")
              three_hundred_updates) =
  Ball.base_radius
    (ball_run (Ball.apply_powerup (Ball.init 100 400) "grow")
              three_hundred_updates).
Proof.
  destruct (grow_expires 100 400 [] three_hundred_updates eq_refl)
    as (Hf & _ & _ & Hdone & _).
  split; [exact Hf |].
  apply Hdone. apply Nat.eq_le_incl. reflexivity.
Defined.

End Witnesses.

Section MatrixFacts.
Import MatrixMath.

Lemma affine_dot (a b : Matrix) : affine a -> affine b -> affine (dot a b).
Proof.
  destruct a as [[a0 a1] a2], b as [[[[b00 b01] b02] [[b10 b11] b12]] b2].
  unfold affine; simpl. intros -> ->. simpl.
  repeat (apply pair_equal_spec; split); ring.
Qed.

Lemma affine_combine (ms : list Matrix) :
  forall m, affine m -> Forall affine ms -> affine (combine_matrices m ms).
Proof.
  unfold combine_matrices.
  induction ms as [| n ms IH]; intros m Hm Hms; cbn [fold_left]; [exact Hm |].
  inversion Hms as [| ? ? Hn Hrest]; subst.
  apply IH; [apply affine_dot; assumption | exact Hrest].
Qed.

Lemma affine_lerp_matrix (a b : Matrix) (t : R) :
  affine a -> affine b -> affine (lerp_matrix a b t).
Proof.
  destruct a as [[a0 a1] a2], b as [[b0 b1] b2].
  unfold affine; simpl. intros -> ->. simpl. unfold lerp.
  repeat (apply pair_equal_spec; split); ring.
Qed.

(** X1. Every matrix the library builds is affine, that is, has bottom row
    [[0, 0, 1]]: translations, scalings, rotations and view matrices are,
    and products, [combine_matrices] and [lerp_matrix] of affine matrices
    are again. *)
Theorem matrices_stay_affine :
  (forall dx dy, affine (create_translation_matrix dx dy)) /\
  (forall sx sy, affine (create_scale_matrix sx sy)) /\
  (forall angle, affine (create_rotation_matrix angle)) /\
  (forall x y z, affine (create_view_matrix x y z)) /\
  (forall m ms, affine m -> Forall affine ms -> affine (combine_matrices m ms)) /\
  (forall a b t, affine a -> affine b -> affine (lerp_matrix a b t)).
Proof.
  split; [intros; reflexivity |]. split; [intros; reflexivity |].
  split; [intros; reflexivity |].
  split.
  - intros x y z. unfold create_view_matrix.
    apply affine_combine; [reflexivity | repeat constructor].
  - split; [intros m ms; apply affine_combine |].
    intros a b t; apply affine_lerp_matrix.
Qed.

Lemma apply_dot (m n : Matrix) (p : Point) :
  affine n ->
  apply_transformation (dot m n) p =
  apply_transformation m (apply_transformation n p).
Proof.
  destruct m as [[[[m00 m01] m02] [[m10 m11] m12]] [[m20 m21] m22]].
  destruct n as [[[[n00 n01] n02] [[n10 n11] n12]] n2].
  destruct p as [x y]. unfold affine; simpl. intros ->.
  unfold apply_transformation; simpl. apply point_eq; ring.
Qed.

(** X2. Applying a combined matrix is applying its factors from the last
    to the first: for affine [ms],
    [apply (combine_matrices m ms) p = apply m (apply m1 (... (apply mn p)))]. *)
Theorem combine_applies_right_to_left (m : Matrix) (ms : list Matrix) (p : Point) :
  Forall affine ms ->
  apply_transformation (combine_matrices m ms) p =
  apply_transformation m (fold_right apply_transformation p ms).
Proof.
  unfold combine_matrices. revert m.
  induction ms as [| n ms IH]; intros m Hms; cbn [fold_left fold_right];
    [reflexivity |].
  inversion Hms as [| ? ? Hn Hrest]; subst.
  rewrite (IH _ Hrest). apply apply_dot, Hn.
Qed.

Lemma combine_applies_right_to_left_witness :
  apply_transformation
    (combine_matrices (create_scale_matrix 2 2) [create_translation_matrix 1 1])
    (3, 4) =
  apply_transformation (create_scale_matrix 2 2)
    (fold_right apply_transformation (3, 4) [create_translation_matrix 1 1]).
Proof.
  apply (combine_applies_right_to_left (create_scale_matrix 2 2)
           [create_translation_matrix 1 1] (3, 4)).
  repeat constructor.
Defined.

(** X3. Rotations compose by adding their angles, and a rotation keeps the
    squared length of the point it is applied to. *)
Theorem rotations_add_and_keep_length (a b : R) (p : Point) :
  dot (create_rotation_matrix a) (create_rotation_matrix b) =
    create_rotation_matrix (a + b) /\
  fst (apply_transformation (create_rotation_matrix a) p)
    * fst (apply_transformation (create_rotation_matrix a) p)
  + snd (apply_transformation (create_rotation_matrix a) p)
    * snd (apply_transformation (create_rotation_matrix a) p)
  = fst p * fst p + snd p * snd p.
Proof.
  split.
  - unfold create_rotation_matrix, dot; simpl.
    rewrite cos_plus, sin_plus.
    repeat (apply pair_equal_spec; split); ring.
  - destruct p as [x y]. unfold apply_transformation; simpl.
    pose proof (sin2_cos2 a) as H. unfold Rsqr in H.
    replace ((cos a * x + - sin a * y + 0 * 1) * (cos a * x + - sin a * y + 0 * 1) +
             (sin a * x + cos a * y + 0 * 1) * (sin a * x + cos a * y + 0 * 1))
      with ((sin a * sin a + cos a * cos a) * (x * x + y * y)) by ring.
    rewrite H. ring.
Qed.

(** X4. Blending two matrices and applying the result to a point gives the
    blend of the two transformed points; so the matrix that
    [get_interpolated_matrix] returns maps every point onto the segment
    from its previous-frame image (alpha 0) to its current image
    (alpha 1). *)
Theorem interpolated_matrix_blends_images (c : Camera.t) (alpha : R) (p : Point) :
  apply_transformation (Camera.get_interpolated_matrix c alpha) p =
    point_lerp (apply_transformation (Camera.previous_matrix c) p)
               (apply_transformation (Camera.view_matrix c) p) alpha /\
  apply_transformation (Camera.get_interpolated_matrix c 0) p =
    apply_transformation (Camera.previous_matrix c) p /\
  apply_transformation (Camera.get_interpolated_matrix c 1) p =
    apply_transformation (Camera.view_matrix c) p.
Proof.
  unfold Camera.get_interpolated_matrix.
  destruct (Camera.previous_matrix c)
    as [[[[a00 a01] a02] [[a10 a11] a12]] [[a20 a21] a22]].
  destruct (Camera.view_matrix c)
    as [[[[b00 b01] b02] [[b10 b11] b12]] [[b20 b21] b22]].
  destruct p as [x y].
  unfold apply_transformation, point_lerp, lerp; simpl.
  repeat split; apply point_eq; unfold lerp; ring.
Qed.

End MatrixFacts.

Section CameraMoreFacts.
Import MatrixMath Camera.

Lemma pan_inv_exec (c : Camera.t) (o : op) : pan_inv c -> pan_inv (exec c o).
Proof.
  intros (Hmin & Hmax & Hs & Htx & Hty & Hpx & Hpy).
  destruct o as [tx ty | z | i d | u1 u2]; unfold pan_inv.
  - cbn [exec set_target min_x max_x position_lerp_speed target_position
         position fst snd].
    rewrite Hmin, Hmax.
    repeat (split; [first [reflexivity | assumption | apply clamp_between; lra] |]).
    assumption.
  - cbn. tauto.
  - cbn. tauto.
  - cbn [exec]. unfold update.
    destruct (shake_offset c u1 u2) as [sx sy].
    cbn [min_x max_x position_lerp_speed target_position position fst snd].
    repeat (split; [first [assumption | apply lerp_between; rewrite ?Hs; lra] |]).
    apply lerp_between; rewrite ?Hs; lra.
Qed.

Lemma pan_inv_run (ops : list op) : forall c, pan_inv c -> pan_inv (run c ops).
Proof.
  induction ops as [| o ops IH]; intros c Hc; cbn [run fold_left]; [exact Hc |].
  apply IH, pan_inv_exec, Hc.
Qed.

Lemma pan_inv_init (w h : Z) : pan_inv (Camera.init w h).
Proof. unfold pan_inv; cbn. repeat split; try reflexivity; lra. Qed.

(** X5. Whatever calls are made on a camera after its construction, the
    follow target and the smoothed position stay inside the pan limits:
    horizontally in [0, 2000], vertically in [-100, 100]. *)
Theorem camera_stays_in_pan_limits (w h : Z) (ops : list op) :
  0 <= fst (target_position (run (Camera.init w h) ops)) <= 2000 /\
  -100 <= snd (target_position (run (Camera.init w h) ops)) <= 100 /\
  0 <= fst (position (run (Camera.init w h) ops)) <= 2000 /\
  -100 <= snd (position (run (Camera.init w h) ops)) <= 100.
Proof.
  pose proof (pan_inv_run ops _ (pan_inv_init w h)) as H.
  unfold pan_inv in H. tauto.
Qed.

(** X6. With random draws in [0, 1] and a non-negative intensity, each
    coordinate of the shake offset that [update] applies lies in
    [-intensity, intensity]; and with no shake time left the offset is
    zero. *)
Theorem shake_offset_bounded (c : Camera.t) (u1 u2 : R) :
  0 <= shake_intensity c -> 0 <= u1 <= 1 -> 0 <= u2 <= 1 ->
  - shake_intensity c <= fst (shake_offset c u1 u2) <= shake_intensity c /\
  - shake_intensity c <= snd (shake_offset c u1 u2) <= shake_intensity c /\
  ((shake_timer c <= 0)%Z -> shake_offset c u1 u2 = (0, 0)).
Proof.
  intros Hi Hu1 Hu2. unfold shake_offset, uniform.
  destruct (Z.ltb_spec 0 (shake_timer c)) as [Hlt | Hge]; cbn [fst snd].
  - split; [split; nra |]. split; [split; nra |]. intros H. lia.
  - split; [lra |]. split; [lra |]. reflexivity.
Qed.

Lemma shake_offset_bounded_witness :
  - shake_intensity (add_screen_shake (Camera.init 1000 600) 3 10)
    <= fst (shake_offset (add_screen_shake (Camera.init 1000 600) 3 10) 0.25 0.75)
    <= shake_intensity (add_screen_shake (Camera.init 1000 600) 3 10) /\
  - shake_intensity (add_screen_shake (Camera.init 1000 600) 3 10)
    <= snd (shake_offset (add_screen_shake (Camera.init 1000 600) 3 10) 0.25 0.75)
    <= shake_intensity (add_screen_shake (Camera.init 1000 600) 3 10) /\
  ((shake_timer (add_screen_shake (Camera.init 1000 600) 3 10) <= 0)%Z ->
   shake_offset (add_screen_shake (Camera.init 1000 600) 3 10) 0.25 0.75 = (0, 0)).
Proof.
  apply (shake_offset_bounded (add_screen_shake (Camera.init 1000 600) 3 10)
           0.25 0.75); cbn; lra.
Defined.




Lemma updates_keep_targets (draws : list (R * R)) :
  forall c,
    target_zoom (camera_updates c draws) = target_zoom c /\
    target_position (camera_updates c draws) = target_position c /\
    zoom_lerp_speed (camera_updates c draws) = zoom_lerp_speed c /\
    position_lerp_speed (camera_updates c draws) = position_lerp_speed c.
Proof.
  induction draws as [| d draws IH]; intros c.
  - repeat split; reflexivity.
  - unfold camera_updates. cbn [fold_left].
    fold (camera_updates (update c (fst d) (snd d)) draws).
    destruct (IH (update c (fst d) (snd d))) as (H1 & H2 & H3 & H4).
    rewrite H1, H2, H3, H4. unfold update.
    destruct (shake_offset c (fst d) (snd d)) as [sx sy].
    repeat split; reflexivity.
Qed.

Lemma updates_approach (draws : list (R * R)) :
  forall c,
    zoom (camera_updates c draws) - target_zoom c =
      (1 - zoom_lerp_speed c) ^ List.length draws * (zoom c - target_zoom c) /\
    fst (position (camera_updates c draws)) - fst (target_position c) =
      (1 - position_lerp_speed c) ^ List.length draws
      * (fst (position c) - fst (target_position c)) /\
    snd (position (camera_updates c draws)) - snd (target_position c) =
      (1 - position_lerp_speed c) ^ List.length draws
      * (snd (position c) - snd (target_position c)).
Proof.
  induction draws as [| d draws IH]; intros c.
  - cbn [List.length pow camera_updates fold_left].
    unfold camera_updates; cbn [fold_left]. repeat split; ring.
  - unfold camera_updates. cbn [fold_left].
    fold (camera_updates (update c (fst d) (snd d)) draws).
    destruct (IH (update c (fst d) (snd d))) as (Hz & Hx & Hy).
    assert (Hu : target_zoom (update c (fst d) (snd d)) = target_zoom c /\
                 target_position (update c (fst d) (snd d)) = target_position c /\
                 zoom_lerp_speed (update c (fst d) (snd d)) = zoom_lerp_speed c /\
                 position_lerp_speed (update c (fst d) (snd d))
                   = position_lerp_speed c /\
                 zoom (update c (fst d) (snd d))
                   = lerp (zoom c) (target_zoom c) (zoom_lerp_speed c) /\
                 position (update c (fst d) (snd d))
                   = (lerp (fst (position c)) (fst (target_position c))
                           (position_lerp_speed c),
                      lerp (snd (position c)) (snd (target_position c))
                           (position_lerp_speed c))).
    { unfold update. destruct (shake_offset c (fst d) (snd d)) as [sx sy].
      repeat split; reflexivity. }
    destruct Hu as (H1 & H2 & H3 & H4 & H5 & H6).
    rewrite H1, H3, H5 in Hz. rewrite H2, H4, H6 in Hx, Hy.
    cbn [fst snd] in Hx, Hy. cbn [List.length pow].
    unfold lerp in Hz, Hx, Hy.
    split; [| split].
    + replace (zoom (camera_updates (update c (fst d) (snd d)) draws) - target_zoom c)
        with ((1 - zoom_lerp_speed c) ^ List.length draws *
              (zoom c + zoom_lerp_speed c * (target_zoom c - zoom c) - target_zoom c))
        by (symmetry; exact Hz).
      ring.
    + rewrite Hx. ring.
    + rewrite Hy. ring.
Qed.

(** X8. With the targets left alone, every update brings the zoom and the
    position closer to their targets by a fixed ratio and never past them:
    after [n] updates the zoom's distance to its target is [0.95 ^ n] times
    what it was and each coordinate of the position's is [0.92 ^ n] times
    what it was, whatever the shake. *)
Theorem camera_approaches_targets (w h : Z) (ops : list op) (draws : list (R * R)) :
  zoom (camera_updates (run (Camera.init w h) ops) draws)
    - target_zoom (run (Camera.init w h) ops)
  = 0.95 ^ List.length draws
    * (zoom (run (Camera.init w h) ops) - target_zoom (run (Camera.init w h) ops)) /\
  fst (position (camera_updates (run (Camera.init w h) ops) draws))
    - fst (target_position (run (Camera.init w h) ops))
  = 0.92 ^ List.length draws
    * (fst (position (run (Camera.init w h) ops))
       - fst (target_position (run (Camera.init w h) ops))) /\
  snd (position (camera_updates (run (Camera.init w h) ops) draws))
    - snd (target_position (run (Camera.init w h) ops))
  = 0.92 ^ List.length draws
    * (snd (position (run (Camera.init w h) ops))
       - snd (target_position (run (Camera.init w h) ops))) /\
  target_zoom (camera_updates (run (Camera.init w h) ops) draws)
    = target_zoom (run (Camera.init w h) ops) /\
  target_position (camera_updates (run (Camera.init w h) ops) draws)
    = target_position (run (Camera.init w h) ops).
Proof.
  set (c := run (Camera.init w h) ops).
  assert (Hz : zoom_lerp_speed c = 0.05)
    by (apply (zoom_inv_run ops _ (zoom_inv_init w h))).
  assert (Hp : position_lerp_speed c = 0.08)
    by (apply (pan_inv_run ops _ (pan_inv_init w h))).
  destruct (updates_approach draws c) as (H1 & H2 & H3).
  destruct (updates_keep_targets draws c) as (H4 & H5 & _).
  rewrite Hz in H1. rewrite Hp in H2, H3.
  replace (1 - 0.05) with 0.95 in H1 by lra.
  replace (1 - 0.08) with 0.92 in H2, H3 by lra.
  repeat split; assumption.
Qed.

(** X9. On every camera, [world_to_screen] maps the displacement between
    two world points to that displacement scaled by the zoom: the position
    and the shake cancel. *)
Theorem world_to_screen_scales_by_zoom (w h : Z) (ops : list op) (p q : Point) :
  fst (world_to_screen (run (Camera.init w h) ops) p)
    - fst (world_to_screen (run (Camera.init w h) ops) q)
  = zoom (run (Camera.init w h) ops) * (fst p - fst q) /\
  snd (world_to_screen (run (Camera.init w h) ops) p)
    - snd (world_to_screen (run (Camera.init w h) ops) q)
  = zoom (run (Camera.init w h) ops) * (snd p - snd q).
Proof.
  set (c := run (Camera.init w h) ops).
  assert (Hv : view_inv c (last_shake (Camera.init w h) ops)).
  { apply view_inv_traced. unfold view_inv; simpl.
    rewrite !Rplus_0_r. reflexivity. }
  unfold world_to_screen. rewrite Hv, !apply_view_matrix.
  cbn [fst snd]. split; ring.
Qed.

End CameraMoreFacts.

Section CarrierFacts.
Import MatrixMath MovingPlatform.

Lemma update_fails_iff (mp : MovingPlatform.t) :
  update mp = None <-> ~ valid_move_type (move_type mp).
Proof.
  split.
  - intros Hnone Hvalid.
    destruct (new_position_total mp (time mp + 0.02) Hvalid) as [[nx ny] Hn].
    destruct (update_commits mp nx ny Hn) as (mp' & Hu & _).
    rewrite Hu in Hnone. discriminate.
  - intros Hinv. unfold update, new_position.
    destruct (String.eqb_spec (move_type mp) "horizontal") as [E | _];
      [exfalso; apply Hinv; left; exact E |].
    destruct (String.eqb_spec (move_type mp) "vertical") as [E | _];
      [exfalso; apply Hinv; right; left; exact E |].
    destruct (String.eqb_spec (move_type mp) "circular") as [E | _];
      [exfalso; apply Hinv; right; right; exact E |].
    reflexivity.
Qed.

Lemma update_keeps_kind (mp mp' : MovingPlatform.t) :
  update mp = Some mp' -> move_type mp' = move_type mp.
Proof.
  unfold update. destruct (new_position mp (time mp + 0.02)) as [[nx ny] |];
    [| discriminate].
  intros H. injection H as <-. reflexivity.
Qed.

Lemma update_platforms_fails_iff (ms : list MovingPlatform.t) :
  Game.update_platforms ms = None <->
  Exists (fun m => ~ valid_move_type (move_type m)) ms.
Proof.
  induction ms as [| m ms IH]; cbn [Game.update_platforms].
  - split; [discriminate | intros H; inversion H].
  - destruct (update m) as [m' |] eqn:Eu.
    + assert (Hv : ~ ~ valid_move_type (move_type m)).
      { intros Hn. apply update_fails_iff in Hn. rewrite Eu in Hn. discriminate. }
      destruct (Game.update_platforms ms) as [ms' |].
      * split; [discriminate |].
        intros H. inversion H as [? ? Hm | ? ? Hrest]; subst.
        -- contradiction.
        -- apply IH in Hrest. discriminate.
      * split; [intros _; apply Exists_cons_tl, IH; reflexivity | reflexivity].
    + split; [| reflexivity].
      intros _. apply Exists_cons_hd, update_fails_iff, Eu.
Qed.

(** X10. [MovingPlatform.update] fails (the source reads [new_x] unbound)
    exactly when the motion kind is none of horizontal, vertical and
    circular, and otherwise keeps the kind; the loop over the moving
    platforms fails exactly when one of them has such a kind. *)
Theorem update_fails_on_unknown_kind (mp : MovingPlatform.t)
    (ms : list MovingPlatform.t) :
  (update mp = None <-> ~ valid_move_type (move_type mp)) /\
  (forall mp', update mp = Some mp' -> move_type mp' = move_type mp) /\
  (Game.update_platforms ms = None <->
   Exists (fun m => ~ valid_move_type (move_type m)) ms).
Proof.
  split; [apply update_fails_iff |].
  split; [apply update_keeps_kind | apply update_platforms_fails_iff].
Qed.

Lemma updates_reach (n : nat) :
  forall mp, valid_move_type (move_type mp) ->
  exists mp',
    updates (S n) mp = Some mp' /\ same_parameters mp mp' /\
    new_position mp (time mp') = Some (x mp', y mp') /\
    time mp' = time mp + INR (S n) * 0.02.
Proof.
  induction n as [| n IH]; intros mp Hv.
  - destruct (new_position_total mp (time mp + 0.02) Hv) as [[nx ny] Hn].
    destruct (update_commits mp nx ny Hn) as (mp' & Hu & Hx & Hy & _ & Ht & _ & Hs).
    exists mp'. cbn [updates]. rewrite Hu, Hx, Hy, Ht.
    split; [reflexivity |]. split; [exact Hs |]. split; [exact Hn |].
    cbn [INR]. lra.
  - destruct (new_position_total mp (time mp + 0.02) Hv) as [[nx ny] Hn].
    destruct (update_commits mp nx ny Hn) as (mp1 & Hu & _ & _ & _ & Ht & _ & Hs).
    assert (Hv1 : valid_move_type (move_type mp1)).
    { replace (move_type mp1) with (move_type mp); [exact Hv | apply Hs]. }
    destruct (IH mp1 Hv1) as (mp' & Hus & Hs' & Hn' & Ht').
    exists mp'.
    change (updates (S (S n)) mp)
      with (match update mp with None => None | Some m => updates (S n) m end).
    rewrite Hu.
    split; [exact Hus |].
    split; [apply (same_parameters_trans _ mp1); assumption |].
    split.
    + rewrite (new_position_parameters mp mp1 _ Hs). exact Hn'.
    + rewrite Ht', Ht. rewrite (S_INR (S n)). lra.
Qed.

Lemma sin_scaled_bound (a : R) (d : Z) :
  - Rabs (IZR d) <= sin a * IZR d <= Rabs (IZR d).
Proof.
  pose proof (SIN_bound a) as [Hlo Hhi].
  unfold Rabs. destruct (Rcase_abs (IZR d)); split; nra.
Qed.

(** X11. A horizontal platform, after any positive number of updates, is
    at its original height and within [distance] of its original
    abscissa; a vertical one is at its original abscissa and within
    [distance] of its original height. *)
Theorem oscillation_stays_within_distance (x0 y0 w h : Z) (sp : R) (d : Z)
    (n : nat) :
  (exists mp,
     updates (S n) (init x0 y0 w h "horizontal" sp d) = Some mp /\
     y mp = IZR y0 /\
     IZR x0 - Rabs (IZR d) <= x mp <= IZR x0 + Rabs (IZR d)) /\
  (exists mp,
     updates (S n) (init x0 y0 w h "vertical" sp d) = Some mp /\
     x mp = IZR x0 /\
     IZR y0 - Rabs (IZR d) <= y mp <= IZR y0 + Rabs (IZR d)).
Proof.
  split.
  - destruct (updates_reach n (init x0 y0 w h "horizontal" sp d))
      as (mp & Hu & _ & Hn & _); [left; reflexivity |].
    exists mp. split; [exact Hu |].
    unfold new_position in Hn. cbn in Hn.
    apply (f_equal (fun o => match o with Some p => p | None => (0, 0) end)) in Hn.
    apply pair_equal_spec in Hn as [Hx Hy].
    rewrite <- Hx, <- Hy. split; [reflexivity |].
    pose proof (sin_scaled_bound (time mp * sp) d). lra.
  - destruct (updates_reach n (init x0 y0 w h "vertical" sp d))
      as (mp & Hu & _ & Hn & _); [right; left; reflexivity |].
    exists mp. split; [exact Hu |].
    unfold new_position in Hn. cbn in Hn.
    apply (f_equal (fun o => match o with Some p => p | None => (0, 0) end)) in Hn.
    apply pair_equal_spec in Hn as [Hx Hy].
    rewrite <- Hx, <- Hy. split; [reflexivity |].
    pose proof (sin_scaled_bound (time mp * sp) d). lra.
Qed.

End CarrierFacts.

Section BallMotion.
Import MatrixMath Ball.

Ltac split_ifs :=
  repeat match goal with
  | |- context [if ?c then _ else _] => destruct c eqn:?
  end.

Lemma update_motion (b : Ball.t) :
  velocity (Ball.update b) =
    (fst (velocity b) * friction b,
     if on_ground b then snd (velocity b) else snd (velocity b) + gravity b) /\
  pos (Ball.update b) =
    (fst (pos b) + fst (velocity (Ball.update b)),
     snd (pos b) + snd (velocity (Ball.update b))) /\
  on_ground (Ball.update b) = false /\
  gravity (Ball.update b) = gravity b /\
  friction (Ball.update b) = friction b /\
  jump_force (Ball.update b) = jump_force b /\
  move_speed (Ball.update b) = move_speed b /\
  original_pos (Ball.update b) = original_pos b.
Proof.
  unfold Ball.update.
  destruct (0 <? scale_timer b)%Z; simpl;
    [destruct (scale_timer b - 1 =? 0)%Z; simpl |];
    destruct (on_ground b); simpl; split_ifs; simpl;
    unfold apply_transformation; simpl;
    (split; [reflexivity |]); (split; [apply point_eq; ring |]);
    repeat split; reflexivity.
Qed.

Lemma ball_updates_fall (n : nat) (s : Ball.t) :
  on_ground s = false ->
  snd (velocity (ball_updates n s)) = snd (velocity s) + INR n * gravity s /\
  snd (pos (ball_updates n s)) =
    snd (pos s) + INR n * snd (velocity s)
    + gravity s * INR n * (INR n + 1) / 2 /\
  fst (velocity (ball_updates n s)) = fst (velocity s) * friction s ^ n /\
  on_ground (ball_updates n s) = false /\
  gravity (ball_updates n s) = gravity s /\
  friction (ball_updates n s) = friction s.
Proof.
  intros Hg. induction n as [| n IH].
  - unfold ball_updates. change (Nat.iter 0 Ball.update s) with s.
    cbn [INR pow].
    repeat split; try reflexivity; try exact Hg; lra.
  - destruct IH as (Hvy & Hy & Hvx & Hog & Hgr & Hfr).
    unfold ball_updates in *. rewrite Nat.iter_succ.
    set (e := Nat.iter n Ball.update s) in *.
    destruct (update_motion e) as (Hv & Hp & Ho & Hg' & Hf' & _).
    rewrite Hp, Hv, Hog, Hg', Hf', Hgr, Hfr, Hvy, Hy, Hvx.
    cbn [fst snd]. rewrite S_INR. cbn [pow].
    split; [ring |]. split; [field |]. split; [ring |].
    split; [exact Ho |]. split; reflexivity.
Qed.

(** X12. A ball that meets nothing falls freely: counted from the state
    left by one [update] (which is never on the ground), [n] further
    updates add [n * gravity] to the vertical velocity, move the ball down
    by [n * vy + gravity * n * (n + 1) / 2], multiply the horizontal
    velocity by [friction ^ n] and leave the ball off the ground. *)
Theorem free_fall (b : Ball.t) (n : nat) :
  on_ground (Ball.update b) = false /\
  snd (velocity (ball_updates n (Ball.update b))) =
    snd (velocity (Ball.update b)) + INR n * gravity b /\
  snd (pos (ball_updates n (Ball.update b))) =
    snd (pos (Ball.update b)) + INR n * snd (velocity (Ball.update b))
    + gravity b * INR n * (INR n + 1) / 2 /\
  fst (velocity (ball_updates n (Ball.update b))) =
    fst (velocity (Ball.update b)) * friction b ^ n /\
  on_ground (ball_updates n (Ball.update b)) = false.
Proof.
  destruct (update_motion b) as (_ & _ & Ho & Hg & Hf & _).
  destruct (ball_updates_fall n (Ball.update b) Ho) as (H1 & H2 & H3 & H4 & _).
  rewrite Hg in H1, H2. rewrite Hf in H3.
  repeat split; assumption.
Qed.

Lemma ball_shape_inv_init (x y : R) : ball_shape_inv (Ball.init x y).
Proof.
  unfold ball_shape_inv; cbn.
  repeat split; try reflexivity; try lia; try lra.
Qed.

Lemma ball_shape_inv_motion (a b : Ball.t) :
  same_but_motion a b -> ball_shape_inv a -> ball_shape_inv b.
Proof.
  unfold same_but_motion, ball_shape_inv.
  intros (_ & _ & Hr & Hs & Ht & _ & _ & Hg & Hj & Hm & Hf).
  rewrite <- Hr, <- Hs, <- Ht, <- Hg, <- Hj, <- Hm, <- Hf. tauto.
Qed.

Lemma apply_powerup_shape (b : Ball.t) (s : string) :
  gravity (apply_powerup b s) = gravity b /\
  friction (apply_powerup b s) = friction b /\
  jump_force (apply_powerup b s) = jump_force b /\
  move_speed (apply_powerup b s) = move_speed b /\
  radius (apply_powerup b s) = radius b /\
  scale_timer (apply_powerup b s) = 300%Z /\
  original_pos (apply_powerup b s) = original_pos b.
Proof.
  unfold apply_powerup.
  destruct (s =? "grow")%string; cbn; [destruct (lives b <? 2)%Z |]; cbn;
    repeat split; reflexivity.
Qed.

Lemma ball_shape_inv_exec (b : Ball.t) (o : ball_op) :
  ball_inv b -> ball_shape_inv b -> ball_shape_inv (ball_exec b o).
Proof.
  intros Hinv Hshape.
  pose proof Hshape as (Hg & Hf & Hj & Hm & Hr & Ht & Hts).
  destruct o as [s | | | | | ps |]; cbn [ball_exec].
  - destruct (apply_powerup_shape b s) as (H1 & H2 & H3 & H4 & H5 & H6 & _).
    unfold ball_shape_inv. rewrite H1, H2, H3, H4, H5, H6.
    repeat (split; [assumption |]). split; [lia |]. intros H; lia.
  - destruct (update_motion b) as (_ & _ & _ & H1 & H2 & H3 & H4 & _).
    destruct (update_scale b) as (Hsf & Hst & Hbr & _ & Hrad).
    assert (Hu : ball_inv (Ball.update b))
      by (apply (ball_inv_exec b BallUpdate), Hinv).
    destruct Hu as (H15 & Hs & _).
    unfold ball_shape_inv. rewrite H1, H2, H3, H4.
    repeat (split; [assumption |]).
    split; [| split].
    + rewrite Hrad. unfold apply_transformation;
        cbn [fst snd dot_vec row_dot create_scale_matrix].
      rewrite H15.
      destruct Hs as [Hs | [Hs | Hs]]; rewrite Hs.
      * left. replace (0.5 * 15 + 0 * 0 + 0 * 1) with 7.5 by lra.
        apply Rabs_pos_eq; lra.
      * right; left. replace (1.0 * 15 + 0 * 0 + 0 * 1) with 15 by lra.
        apply Rabs_pos_eq; lra.
      * right; right. replace (2.0 * 15 + 0 * 0 + 0 * 1) with 30 by lra.
        apply Rabs_pos_eq; lra.
    + rewrite Hst. unfold scale_state, tick.
      destruct (Z.ltb_spec 0 (scale_timer b)); cbn [snd]; lia.
    + rewrite Hst, Hsf. unfold scale_state, tick.
      destruct (Z.ltb_spec 0 (scale_timer b)); cbn [fst snd].
      * destruct (Z.eqb_spec (scale_timer b - 1) 0); [reflexivity | intros; lia].
      * intros _. apply Hts. lia.
  - unfold move_left, ball_shape_inv; cbn; tauto.
  - unfold move_right, ball_shape_inv; cbn; tauto.
  - unfold jump. destruct (on_ground b);
      [unfold ball_shape_inv; cbn; tauto | exact Hshape].
  - apply (ball_shape_inv_motion b);
      [apply handle_platform_collision_motion_only | exact Hshape].
  - unfold Game.respawn, ball_shape_inv; cbn; tauto.
Qed.

Lemma ball_shape_inv_run (ops : list ball_op) :
  forall b, ball_inv b -> ball_shape_inv b -> ball_shape_inv (ball_run b ops).
Proof.
  induction ops as [| o ops IH]; intros b Hb Hs; cbn [ball_run fold_left];
    [exact Hs |].
  apply IH; [apply ball_inv_exec, Hb | apply ball_shape_inv_exec; assumption].
Qed.

(** X13. Whatever is done to a ball after its construction, its radius is
    one of 7.5, 15 and 30, its scale timer stays in [0, 300], its scale
    factor is 1.0 whenever the timer is 0, and its physics constants are
    those set by the constructor. *)
Theorem ball_shape_is_kept (x y : R) (ops : list ball_op) :
  (radius (ball_run (Ball.init x y) ops) = 7.5 \/
   radius (ball_run (Ball.init x y) ops) = 15 \/
   radius (ball_run (Ball.init x y) ops) = 30) /\
  (0 <= scale_timer (ball_run (Ball.init x y) ops) <= 300)%Z /\
  (scale_timer (ball_run (Ball.init x y) ops) = 0%Z ->
   scale_factor (ball_run (Ball.init x y) ops) = 1.0) /\
  gravity (ball_run (Ball.init x y) ops) = 0.5 /\
  friction (ball_run (Ball.init x y) ops) = 0.8 /\
  jump_force (ball_run (Ball.init x y) ops) = -12 /\
  move_speed (ball_run (Ball.init x y) ops) = 5 /\
  base_radius (ball_run (Ball.init x y) ops) = 15.
Proof.
  pose proof (ball_shape_inv_run ops _ (ball_inv_init x y) (ball_shape_inv_init x y))
    as (Hg & Hf & Hj & Hm & Hr & Ht & Hts).
  pose proof (ball_inv_run ops _ (ball_inv_init x y)) as (H15 & _).
  repeat (split; [assumption |]). exact H15.
Qed.

End BallMotion.

Section CollisionPass.
Import MatrixMath Ball.

Ltac case_split :=
  repeat match goal with
  | |- context [if ?c then _ else _] => destruct c
  | |- context [match ?p with Static _ => _ | Moving _ => _ end] => destruct p
  end.

(** X14. A pass over platforms none of which the ball's rectangle
    overlaps, and so a pass over no platform at all, leaves the ball
    exactly as it was. *)
Theorem pass_without_overlap_is_identity (b : Ball.t)
    (platforms : list AnyPlatform) :
  Forall (fun q => Rect.colliderect (bounding_rect (pos b) (radius b))
                     (platform_rect q) = false) platforms ->
  handle_platform_collision b platforms = b.
Proof.
  intros H. unfold handle_platform_collision.
  rewrite (collision_fold_miss platforms b _ H). reflexivity.
Qed.

Lemma pass_without_overlap_is_identity_witness :
  handle_platform_collision falling_ball [Static shelf] = falling_ball.
Proof.
  apply (pass_without_overlap_is_identity falling_ball [Static shelf]).
  constructor; [| constructor].
  unfold falling_ball.
  rewrite (bounding_rect_eq _ _ 35 75 30) by (simpl; lra).
  reflexivity.
Defined.

Lemma resolve_keeps_ground (b : Ball.t) (platform : AnyPlatform) :
  on_ground b = true -> on_ground (resolve b platform) = true.
Proof.
  intros H. unfold resolve. case_split; cbn; try reflexivity; exact H.
Qed.

Lemma fast_platform_check_keeps_ground (b : Ball.t) (platform : AnyPlatform) :
  on_ground (fast_platform_check b platform) = on_ground b.
Proof. unfold fast_platform_check. case_split; reflexivity. Qed.

Lemma collision_fold_keeps_ground (platforms : list AnyPlatform) :
  forall b r,
    on_ground b = true ->
    on_ground (fst (fold_left collision_step platforms (b, r))) = true.
Proof.
  induction platforms as [| p ps IH]; intros b r H; cbn [fold_left];
    [exact H |].
  unfold collision_step at 2.
  destruct (Rect.colliderect r (platform_rect p)).
  - apply IH. rewrite fast_platform_check_keeps_ground.
    apply resolve_keeps_ground, H.
  - apply IH, H.
Qed.

Lemma resolve_static_effect (b : Ball.t) (p : Platform.t) :
  kept_or_zero (fst (velocity b)) (fst (velocity (resolve b (Static p)))) /\
  kept_or_zero (snd (velocity b)) (snd (velocity (resolve b (Static p)))) /\
  (on_ground (resolve b (Static p)) = true ->
   on_ground b = true \/ snd (velocity (resolve b (Static p))) = 0).
Proof.
  unfold resolve, kept_or_zero. case_split; cbn; tauto.
Qed.

Lemma static_fold_effect (statics : list Platform.t) :
  forall b r,
    kept_or_zero (fst (velocity b))
      (fst (velocity (fst (fold_left collision_step (map Static statics) (b, r))))) /\
    kept_or_zero (snd (velocity b))
      (snd (velocity (fst (fold_left collision_step (map Static statics) (b, r))))) /\
    (on_ground (fst (fold_left collision_step (map Static statics) (b, r))) = true ->
     on_ground b = true \/
     snd (velocity (fst (fold_left collision_step (map Static statics) (b, r)))) = 0).
Proof.
  induction statics as [| p ps IH]; intros b r; cbn [map fold_left].
  - unfold kept_or_zero; cbn [fst]. tauto.
  - unfold collision_step at 2 4 6 8.
    destruct (Rect.colliderect r (platform_rect (Static p))).
    + cbn [fast_platform_check].
      destruct (resolve_static_effect b p) as (Hx & Hy & Hg).
      destruct (IH (resolve b (Static p))
                   (Rect.assign r
                      (fst (pos (resolve b (Static p))) - radius (resolve b (Static p)))
                      (snd (pos (resolve b (Static p))) - radius (resolve b (Static p)))))
        as (Hx' & Hy' & Hg').
      unfold kept_or_zero in *.
      split; [destruct Hx' as [-> | ->]; tauto |].
      split; [destruct Hy' as [-> | ->]; tauto |].
      intros Hend. destruct (Hg' Hend) as [Hmid | Hzero]; [| tauto].
      destruct (Hg Hmid) as [Hb | Hz]; [tauto |].
      right. destruct Hy' as [-> | ->]; [exact Hz | reflexivity].
    + apply IH.
Qed.

(** X16. A collision pass never clears the on-ground flag.  A pass over
    static platforms only never adds velocity: each velocity component
    ends as it was or as 0, and a ball that the pass has put on the ground
    ends with vertical velocity 0. *)
Theorem static_pass_only_cancels_velocity (b : Ball.t)
    (platforms : list AnyPlatform) (statics : list Platform.t) :
  (on_ground b = true ->
   on_ground (handle_platform_collision b platforms) = true) /\
  kept_or_zero (fst (velocity b))
    (fst (velocity (handle_platform_collision b (map Static statics)))) /\
  kept_or_zero (snd (velocity b))
    (snd (velocity (handle_platform_collision b (map Static statics)))) /\
  (on_ground b = false ->
   on_ground (handle_platform_collision b (map Static statics)) = true ->
   snd (velocity (handle_platform_collision b (map Static statics))) = 0).
Proof.
  split; [intros H; apply collision_fold_keeps_ground, H |].
  unfold handle_platform_collision.
  destruct (static_fold_effect statics b (bounding_rect (pos b) (radius b)))
    as (Hx & Hy & Hg).
  split; [exact Hx |]. split; [exact Hy |].
  intros Hoff Hend. destruct (Hg Hend) as [Hon | Hz]; [| exact Hz].
  rewrite Hoff in Hon. discriminate.
Qed.

End CollisionPass.

Section Collecting.
Import Game.

Lemma collect_coins_spec (r : Rect.t) (cs : list Coin.t) :
  forall sc cam,
    fst (fst (collect_coins r cs sc cam)) =
      map (fun c => if coin_hit r c then Coin.collect c else c) cs /\
    snd (fst (collect_coins r cs sc cam)) =
      (sc + 10 * Z.of_nat (List.length (filter (coin_hit r) cs)))%Z /\
    snd (collect_coins r cs sc cam) =
      match filter (coin_hit r) cs with
      | [] => cam
      | _ :: _ => Camera.add_screen_shake cam 1 5
      end.
Proof.
  induction cs as [| c cs IH]; intros sc cam; cbn [collect_coins map filter].
  - cbn. split; [reflexivity |]. split; [lia | reflexivity].
  - fold (coin_hit r c). destruct (coin_hit r c).
    + destruct (IH (sc + 10)%Z (Camera.add_screen_shake cam 1 5)) as (H1 & H2 & H3).
      destruct (collect_coins r cs (sc + 10) (Camera.add_screen_shake cam 1 5))
        as [[cs' sc'] cam'].
      cbn [fst snd] in *. subst cs' sc' cam'.
      split; [reflexivity |]. split.
      * cbn [List.length]. lia.
      * destruct (filter (coin_hit r) cs); reflexivity.
    + destruct (IH sc cam) as (H1 & H2 & H3).
      destruct (collect_coins r cs sc cam) as [[cs' sc'] cam'].
      cbn [fst snd] in *. subst cs' sc' cam'.
      split; [reflexivity |]. split; reflexivity.
Qed.

Lemma coins_after_not_hit (r : Rect.t) (cs : list Coin.t) :
  Forall (fun c => negb (Coin.collected c) && Rect.colliderect r (coin_rect c) = false)
         (map (fun c => if coin_hit r c then Coin.collect c else c) cs).
Proof.
  induction cs as [| c cs IH]; cbn [map]; constructor; [| exact IH].
  destruct (coin_hit r c) eqn:E; [reflexivity | exact E].
Qed.

(** X17. The loop over the coins marks exactly the uncollected coins that
    the ball's rectangle meets, adds 10 points for each of them, and sets
    the small shake when there is one; run again on its result, it
    collects nothing and leaves the score as it is: no coin is paid
    twice. *)
Theorem coins_are_paid_once (r : Rect.t) (cs : list Coin.t) (sc : Z)
    (cam : Camera.t) :
  fst (fst (collect_coins r cs sc cam)) =
    map (fun c => if coin_hit r c then Coin.collect c else c) cs /\
  snd (fst (collect_coins r cs sc cam)) =
    (sc + 10 * Z.of_nat (List.length (filter (coin_hit r) cs)))%Z /\
  snd (collect_coins r cs sc cam) =
    match filter (coin_hit r) cs with
    | [] => cam
    | _ :: _ => Camera.add_screen_shake cam 1 5
    end /\
  collect_coins r (fst (fst (collect_coins r cs sc cam)))
                  (snd (fst (collect_coins r cs sc cam)))
                  (snd (collect_coins r cs sc cam))
  = collect_coins r cs sc cam.
Proof.
  destruct (collect_coins_spec r cs sc cam) as (H1 & H2 & H3).
  split; [exact H1 |]. split; [exact H2 |]. split; [exact H3 |].
  rewrite (collect_coins_miss r (fst (fst (collect_coins r cs sc cam))));
    [| rewrite H1; apply coins_after_not_hit].
  destruct (collect_coins r cs sc cam) as [[a b] c]. reflexivity.
Qed.

Lemma collect_powerups_spec (r : Rect.t) (ps : list PowerUp.t) :
  forall b cam,
    fst (fst (collect_powerups r ps b cam)) =
      map (fun p => if powerup_hit r p then PowerUp.collect p else p) ps /\
    snd (fst (collect_powerups r ps b cam)) =
      fold_left Ball.apply_powerup
        (map PowerUp.power_type (filter (powerup_hit r) ps)) b /\
    snd (collect_powerups r ps b cam) =
      match filter (powerup_hit r) ps with
      | [] => cam
      | _ :: _ => Camera.add_screen_shake cam 2 8
      end.
Proof.
  induction ps as [| p ps IH]; intros b cam; cbn [collect_powerups map filter].
  - cbn. repeat split; reflexivity.
  - fold (powerup_hit r p). destruct (powerup_hit r p).
    + destruct (IH (Ball.apply_powerup b (PowerUp.power_type p))
                   (Camera.add_screen_shake cam 2 8)) as (H1 & H2 & H3).
      destruct (collect_powerups r ps (Ball.apply_powerup b (PowerUp.power_type p))
                  (Camera.add_screen_shake cam 2 8)) as [[ps' b'] cam'].
      cbn [fst snd] in *. subst ps' b' cam'.
      split; [reflexivity |]. split; [reflexivity |].
      destruct (filter (powerup_hit r) ps); reflexivity.
    + destruct (IH b cam) as (H1 & H2 & H3).
      destruct (collect_powerups r ps b cam) as [[ps' b'] cam'].
      cbn [fst snd] in *. subst ps' b' cam'.
      repeat split; reflexivity.
Qed.

Lemma powerups_after_not_hit (r : Rect.t) (ps : list PowerUp.t) :
  Forall (fun p => negb (PowerUp.collected p)
                   && Rect.colliderect r (powerup_rect p) = false)
         (map (fun p => if powerup_hit r p then PowerUp.collect p else p) ps).
Proof.
  induction ps as [| p ps IH]; cbn [map]; constructor; [| exact IH].
  destruct (powerup_hit r p) eqn:E; [reflexivity | exact E].
Qed.

Lemma apply_powerup_lives (b : Ball.t) (s : string) :
  (Ball.lives b - 1 <= Ball.lives (Ball.apply_powerup b s))%Z /\
  (Ball.lives (Ball.apply_powerup b s) <= Z.max 2 (Ball.lives b))%Z /\
  Ball.pos (Ball.apply_powerup b s) = Ball.pos b /\
  Ball.radius (Ball.apply_powerup b s) = Ball.radius b.
Proof.
  unfold Ball.apply_powerup.
  destruct (s =? "grow")%string; cbn;
    [destruct (Z.ltb_spec (Ball.lives b) 2); cbn |];
    repeat split; try reflexivity; lia.
Qed.

Lemma apply_powerups_lives (kinds : list string) :
  forall b,
    (Ball.lives b - Z.of_nat (List.length kinds)
       <= Ball.lives (fold_left Ball.apply_powerup kinds b))%Z /\
    (Ball.lives (fold_left Ball.apply_powerup kinds b) <= Z.max 2 (Ball.lives b))%Z /\
    Ball.pos (fold_left Ball.apply_powerup kinds b) = Ball.pos b /\
    Ball.radius (fold_left Ball.apply_powerup kinds b) = Ball.radius b.
Proof.
  induction kinds as [| s kinds IH]; intros b; cbn [fold_left List.length].
  - repeat split; try reflexivity; lia.
  - destruct (IH (Ball.apply_powerup b s)) as (H1 & H2 & H3 & H4).
    destruct (apply_powerup_lives b s) as (K1 & K2 & K3 & K4).
    rewrite H3, H4, K3, K4. repeat split; try reflexivity; lia.
Qed.

(** X18. The loop over the power-ups marks exactly the uncollected
    power-ups that the ball's rectangle meets and applies them to the ball
    in list order; the ball loses at most one life per power-up met and
    never ends above 2 lives (or above what it had); its position and
    radius are untouched; and a second run over the result applies
    nothing. *)
Theorem powerups_are_applied_once (r : Rect.t) (ps : list PowerUp.t)
    (b : Ball.t) (cam : Camera.t) :
  fst (fst (collect_powerups r ps b cam)) =
    map (fun p => if powerup_hit r p then PowerUp.collect p else p) ps /\
  snd (fst (collect_powerups r ps b cam)) =
    fold_left Ball.apply_powerup
      (map PowerUp.power_type (filter (powerup_hit r) ps)) b /\
  (Ball.lives b - Z.of_nat (List.length (filter (powerup_hit r) ps))
     <= Ball.lives (snd (fst (collect_powerups r ps b cam))))%Z /\
  (Ball.lives (snd (fst (collect_powerups r ps b cam)))
     <= Z.max 2 (Ball.lives b))%Z /\
  Ball.pos (snd (fst (collect_powerups r ps b cam))) = Ball.pos b /\
  Ball.radius (snd (fst (collect_powerups r ps b cam))) = Ball.radius b /\
  snd (fst (collect_powerups r (fst (fst (collect_powerups r ps b cam)))
                             (snd (fst (collect_powerups r ps b cam)))
                             (snd (collect_powerups r ps b cam))))
  = snd (fst (collect_powerups r ps b cam)).
Proof.
  destruct (collect_powerups_spec r ps b cam) as (H1 & H2 & _).
  destruct (apply_powerups_lives
              (map PowerUp.power_type (filter (powerup_hit r) ps)) b)
    as (L1 & L2 & L3 & L4).
  rewrite length_map in L1. rewrite <- H2 in L1, L2, L3, L4.
  repeat (split; [assumption |]).
  rewrite (collect_powerups_miss r (fst (fst (collect_powerups r ps b cam))));
    [reflexivity | rewrite H1; apply powerups_after_not_hit].
Qed.

End Collecting.

Section LoopFacts.
Import Game.

(** X19. The respawn: a ball that has not left the playfield leaves the
    game untouched; one that has is put back on its start position with
    zero velocity and at least one life: with 2 or more lives it loses one
    and the score is kept, with fewer the level is rebuilt with score 0
    and a new ball of 2 lives. *)
Theorem fall_respawns_or_resets (g : Game.t) :
  (fallen g = false -> check_fall g = g) /\
  (fallen g = true ->
     Ball.pos (ball (check_fall g)) = Ball.original_pos (ball (check_fall g)) /\
     Ball.velocity (ball (check_fall g)) = (0, 0) /\
     (1 <= Ball.lives (ball (check_fall g)))%Z /\
     ((2 <= Ball.lives (ball g))%Z ->
        Ball.lives (ball (check_fall g)) = (Ball.lives (ball g) - 1)%Z /\
        score (check_fall g) = score g /\
        current_level (check_fall g) = current_level g) /\
     ((Ball.lives (ball g) <= 1)%Z ->
        ball (check_fall g) = Ball.init 100 400 /\
        score (check_fall g) = 0%Z /\
        current_level (check_fall g) = current_level g /\
        powerups (check_fall g) = create_powerups (current_level g) /\
        coins (check_fall g) = create_coins (current_level g))).
Proof.
  unfold fallen, check_fall. split; intros Hf; rewrite Hf; [reflexivity |].
  cbn [ball set_ball respawn Ball.lives Ball.set_lives Ball.set_velocity
       Ball.set_pos].
  destruct (Z.leb_spec (Ball.lives (ball g) - 1) 0) as [Hle | Hgt].
  - cbn. repeat split; try reflexivity; try lia.
  - cbn. repeat split; try reflexivity; try lia.
Qed.

Lemma handle_event_lives (g : Game.t) (running : bool) (e : Event) :
  (1 <= Ball.lives (ball g))%Z ->
  (1 <= Ball.lives (ball (fst (handle_event (g, running) e))))%Z.
Proof.
  intros H. destruct e as [| k |]; cbn [handle_event fst]; try exact H.
  destruct (is_K_r k && level_complete g && (current_level g =? max_level g)%Z);
    cbn [fst]; [cbn; lia |].
  destruct (Z.leb_spec (Ball.lives (ball g)) 0); cbn [fst]; [cbn; lia | exact H].
Qed.

Lemma handle_events_lives (evs : list Event) :
  forall g running,
    (1 <= Ball.lives (ball g))%Z ->
    (1 <= Ball.lives (ball (fst (fold_left handle_event evs (g, running)))))%Z.
Proof.
  induction evs as [| e evs IH]; intros g running H; cbn [fold_left];
    [exact H |].
  pose proof (handle_event_lives g running e H) as Hstep.
  destruct (handle_event (g, running) e) as [g1 r1]. apply IH, Hstep.
Qed.

Lemma keydown_gives_lives (g : Game.t) (running : bool) (k : Key) :
  (1 <= Ball.lives (ball (fst (handle_event (g, running) (KEYDOWN k)))))%Z.
Proof.
  cbn [handle_event].
  destruct (is_K_r k && level_complete g && (current_level g =? max_level g)%Z);
    cbn [fst]; [cbn; lia |].
  destruct (Z.leb_spec (Ball.lives (ball g)) 0); cbn [fst]; [cbn; lia | lia].
Qed.

(** X20. Once the events of an iteration contain a key press, the ball
    enters the rest of the iteration with at least one life: a key press
    met with no life left rebuilds the level with score 0, and no later
    event takes a life.  A press of R with the last level complete
    rebuilds level 1. *)
Theorem key_press_restores_lives (g : Game.t) (running : bool)
    (before after : list Event) (k : Key) :
  (1 <= Ball.lives
          (ball (fst (fold_left handle_event (before ++ KEYDOWN k :: after)
                                (g, running)))))%Z /\
  ((Ball.lives (ball g) <= 0)%Z ->
   (is_K_r k && level_complete g && (current_level g =? max_level g)%Z) = false ->
   fst (handle_event (g, running) (KEYDOWN k)) =
     set_camera (build_level (width g) (height g) (current_level g) (max_level g))
       (Camera.add_screen_shake (Camera.init (width g) (height g)) 10 60)) /\
  (level_complete g = true -> current_level g = max_level g ->
   fst (handle_event (g, running) (KEYDOWN K_r)) =
     build_level (width g) (height g) 1 (max_level g)).
Proof.
  split; [| split].
  - rewrite fold_left_app. cbn [fold_left].
    destruct (fold_left handle_event before (g, running)) as [g1 r1].
    pose proof (keydown_gives_lives g1 r1 k) as H.
    destruct (handle_event (g1, r1) (KEYDOWN k)) as [g2 r2].
    apply handle_events_lives, H.
  - intros Hl Hk. cbn [handle_event]. rewrite Hk.
    replace (Ball.lives (ball g) <=? 0)%Z with true
      by (symmetry; apply Z.leb_le; exact Hl).
    reflexivity.
  - intros Hc Hl. cbn [handle_event is_K_r]. rewrite Hc, Hl, Z.eqb_refl.
    reflexivity.
Qed.

Lemma handle_events_running (evs : list Event) :
  forall g running,
    snd (fold_left handle_event evs (g, running)) =
    running && forallb (fun e => match e with QUIT => false | _ => true end) evs.
Proof.
  induction evs as [| e evs IH]; intros g running; cbn [fold_left forallb].
  - rewrite andb_true_r. reflexivity.
  - destruct e as [| k |].
    + cbn [handle_event]. rewrite IH. cbn. rewrite andb_false_r. reflexivity.
    + pose proof (IH (fst (handle_event (g, running) (KEYDOWN k))) running) as H.
      replace (handle_event (g, running) (KEYDOWN k))
        with (fst (handle_event (g, running) (KEYDOWN k)), running).
      * rewrite H. reflexivity.
      * cbn [handle_event].
        destruct (is_K_r k && level_complete g
                  && (current_level g =? max_level g)%Z); [reflexivity |].
        destruct (Ball.lives (ball g) <=? 0)%Z; reflexivity.
    + cbn [handle_event]. rewrite IH. reflexivity.
Qed.

Lemma iteration_running (g : Game.t) (i : Input) (g' : Game.t) (running : bool) :
  iteration g i = Some (g', running) ->
  running = forallb (fun e => match e with QUIT => false | _ => true end)
                    (events i).
Proof.
  unfold iteration.
  pose proof (handle_events_running (events i) g true) as Hr.
  destruct (fold_left handle_event (events i) (g, true)) as [g1 r1].
  cbn [snd andb] in Hr. subst r1.
  destruct (negb (level_complete _)).
  - destruct (simulate _ _ _); [| discriminate].
    intros H. injection H as _ <-. reflexivity.
  - intros H. injection H as _ <-. reflexivity.
Qed.

(** X21. A QUIT event ends the loop with the iteration it arrives in: the
    iteration is still carried out, and no later input is consumed.
    Without a QUIT event the loop goes on to the next input. *)
Theorem quit_ends_the_loop (g : Game.t) (before after : list Event)
    (keys : Key -> bool) (u1 u2 : R) (i : Input) (rest : list Input) :
  run g (mkInput (before ++ QUIT :: after) keys u1 u2 :: rest) =
    run g [mkInput (before ++ QUIT :: after) keys u1 u2] /\
  (forallb (fun e => match e with QUIT => false | _ => true end) (events i) = true ->
   run g (i :: rest) =
     match iteration g i with
     | Some (g', _) => run g' rest
     | None => None
     end).
Proof.
  split.
  - cbn [run].
    destruct (iteration g (mkInput (before ++ QUIT :: after) keys u1 u2))
      as [[g' running] |] eqn:E; [| reflexivity].
    apply iteration_running in E. cbn [events] in E.
    rewrite forallb_app in E. cbn [forallb] in E.
    rewrite andb_false_r in E. subst running. reflexivity.
  - intros Hq. cbn [run].
    destruct (iteration g i) as [[g' running] |] eqn:E; [| reflexivity].
    apply iteration_running in E. rewrite Hq in E. subst running. reflexivity.
Qed.

End LoopFacts.

Section LoopInvariant.
Import Game.

Ltac gsimpl :=
  cbn [width height max_level current_level ball score moving_platforms coins
       powerups flag camera level_complete set_ball set_camera set_score
       set_current_level set_level_complete set_flag set_coins set_powerups
       set_moving_platforms build_level respawn Ball.lives Ball.set_lives
       Ball.set_velocity Ball.set_pos Ball.init].

Ltac ginv := unfold game_inv; gsimpl; repeat split; try assumption; try lia.

Lemma level_tables_valid (l : Z) :
  Forall (fun m => valid_move_type (MovingPlatform.move_type m))
         (create_moving_platforms l).
Proof.
  unfold create_moving_platforms.
  destruct (l =? 1)%Z; [| destruct (l =? 2)%Z];
    repeat (apply Forall_cons;
            [unfold valid_move_type;
             cbn [MovingPlatform.move_type MovingPlatform.init]; tauto |]);
    apply Forall_nil.
Qed.

Lemma game_inv_build (l : Z) :
  (1 <= l <= 3)%Z -> game_inv (build_level 1000 600 l 3).
Proof.
  intros Hl. unfold game_inv. gsimpl.
  repeat split; try reflexivity; try lia. apply level_tables_valid.
Qed.

Lemma game_inv_reset (g : Game.t) : game_inv g -> game_inv (reset_level g).
Proof.
  intros (Hw & Hh & Hm & Hl & _). unfold reset_level.
  rewrite Hw, Hh, Hm. apply game_inv_build, Hl.
Qed.

Lemma game_inv_set_camera (g : Game.t) (c : Camera.t) :
  game_inv g -> game_inv (set_camera g c).
Proof. intros H. exact H. Qed.

Lemma game_inv_set_ball (g : Game.t) (b : Ball.t) :
  game_inv g -> (Ball.lives b <= 2)%Z -> game_inv (set_ball g b).
Proof.
  intros (Hw & Hh & Hm & Hl & Hlv & Hs & Hv) Hb. ginv.
Qed.

Lemma game_inv_handle_event (g : Game.t) (running : bool) (e : Event) :
  game_inv g -> game_inv (fst (handle_event (g, running) e)).
Proof.
  intros H. destruct e as [| k |]; cbn [handle_event fst]; try exact H.
  destruct (is_K_r k && level_complete g && (current_level g =? max_level g)%Z);
    cbn [fst].
  - destruct H as (Hw & Hh & Hm & _). unfold reset_level.
    cbn [width height current_level max_level set_current_level].
    rewrite Hw, Hh, Hm. apply game_inv_build. lia.
  - destruct (Ball.lives (ball g) <=? 0)%Z; cbn [fst]; [| exact H].
    apply game_inv_set_camera, game_inv_reset.
    destruct H as (Hw & Hh & Hm & Hl & Hlv & Hs & Hv). ginv.
Qed.

Lemma game_inv_handle_events (evs : list Event) :
  forall g running,
    game_inv g -> game_inv (fst (fold_left handle_event evs (g, running))).
Proof.
  induction evs as [| e evs IH]; intros g running H; cbn [fold_left];
    [exact H |].
  pose proof (game_inv_handle_event g running e H) as Hstep.
  destruct (handle_event (g, running) e) as [g1 r1]. apply IH, Hstep.
Qed.

Lemma handle_keys_lives (keys : Key -> bool) (b : Ball.t) :
  Ball.lives (handle_keys keys b) = Ball.lives b.
Proof.
  unfold handle_keys, Ball.jump, Ball.move_left, Ball.move_right.
  destruct (keys K_LEFT || keys K_a); destruct (keys K_RIGHT || keys K_d);
    destruct (keys K_SPACE || keys K_UP); cbn;
    try (destruct (Ball.on_ground b)); reflexivity.
Qed.

Lemma update_platforms_valid (ms : list MovingPlatform.t) :
  Forall (fun m => valid_move_type (MovingPlatform.move_type m)) ms ->
  exists ms',
    update_platforms ms = Some ms' /\
    Forall (fun m => valid_move_type (MovingPlatform.move_type m)) ms'.
Proof.
  induction 1 as [| m ms Hm _ (ms' & IH & Hv)]; cbn [update_platforms].
  - exists []. split; [reflexivity | constructor].
  - destruct (MovingPlatform.update m) as [m' |] eqn:Eu.
    + rewrite IH. exists (m' :: ms'). split; [reflexivity |].
      constructor; [| exact Hv].
      rewrite (update_keeps_kind m m' Eu). exact Hm.
    + apply update_fails_iff in Eu. contradiction.
Qed.

Lemma game_inv_check_flag (r : Rect.t) (g : Game.t) :
  game_inv g -> game_inv (check_flag r g).
Proof.
  intros H. pose proof H as (Hw & Hh & Hm & Hl & Hlv & Hs & Hv).
  unfold check_flag.
  destruct (negb (Flag.collected (flag g))); [| exact H].
  destruct (Rect.colliderect r (flag_rect (flag g))); [| exact H].
  cbn [current_level max_level set_camera set_score set_level_complete set_flag].
  destruct (Z.ltb_spec (current_level g) (max_level g)) as [Hlt | Hge].
  - unfold reset_level.
    cbn [width height current_level max_level set_current_level set_camera
         set_score set_level_complete set_flag].
    rewrite Hw, Hh, Hm.
    assert (Hb : game_inv (build_level 1000 600 (current_level g + 1) 3))
      by (apply game_inv_build; lia).
    exact Hb.
  - ginv.
Qed.

Lemma game_inv_check_collisions (g : Game.t) :
  game_inv g -> game_inv (check_collisions g).
Proof.
  intros H. pose proof H as (Hw & Hh & Hm & Hl & Hlv & Hs & Hv).
  unfold check_collisions.
  set (r := Ball.bounding_rect (Ball.pos (ball g)) (Ball.radius (ball g))).
  destruct (collect_coins_spec r (coins g) (score g) (camera g)) as (_ & Hsc & _).
  destruct (collect_coins r (coins g) (score g) (camera g)) as [[cs sc] cam].
  cbn [fst snd] in Hsc.
  cbn [powerups ball camera set_camera set_score set_coins].
  destruct (collect_powerups_spec r (powerups g) (ball g) cam) as (_ & Hb & _).
  destruct (apply_powerups_lives
              (map PowerUp.power_type (filter (powerup_hit r) (powerups g)))
              (ball g)) as (_ & Hle & _).
  rewrite <- Hb in Hle.
  destruct (collect_powerups r (powerups g) (ball g) cam) as [[ps b] cam'].
  cbn [fst snd] in Hle.
  apply game_inv_check_flag. ginv.
Qed.

Lemma game_inv_check_fall (g : Game.t) : game_inv g -> game_inv (check_fall g).
Proof.
  intros H. pose proof H as (Hw & Hh & Hm & Hl & Hlv & Hs & Hv).
  unfold check_fall.
  destruct (Rltb _ _); [| exact H].
  cbn [ball set_ball respawn Ball.lives Ball.set_lives Ball.set_velocity
       Ball.set_pos].
  destruct (Ball.lives (ball g) - 1 <=? 0)%Z.
  - apply game_inv_set_camera, game_inv_reset. ginv.
  - ginv.
Qed.

Lemma game_inv_simulate (g : Game.t) (u1 u2 : R) :
  game_inv g -> exists g', simulate g u1 u2 = Some g' /\ game_inv g'.
Proof.
  intros H. pose proof H as (Hw & Hh & Hm & Hl & Hlv & Hs & Hv).
  unfold simulate, collide.
  cbn [moving_platforms set_ball ball].
  destruct (update_platforms_valid (moving_platforms g) Hv) as (ms & Hu & Hv').
  rewrite Hu. eexists. split; [reflexivity |].
  apply game_inv_check_fall. unfold update_camera. apply game_inv_set_camera.
  apply game_inv_check_collisions.
  ginv.
  pose proof (handle_platform_collision_motion_only (Ball.update (ball g))
                (all_platforms (set_ball g (Ball.update (ball g)))))
    as (_ & _ & _ & _ & _ & _ & Hlives & _).
  rewrite <- Hlives.
  destruct (update_scale (ball g)) as (_ & _ & _ & Hl' & _).
  rewrite Hl'. exact Hlv.
Qed.

Lemma game_inv_iteration (g : Game.t) (i : Input) :
  game_inv g ->
  exists g' running, iteration g i = Some (g', running) /\ game_inv g'.
Proof.
  intros H. unfold iteration.
  pose proof (game_inv_handle_events (events i) g true H) as H1.
  destruct (fold_left handle_event (events i) (g, true)) as [g1 r1].
  cbn [fst] in H1.
  assert (H2 : game_inv (set_ball g1 (handle_keys (keys i) (ball g1)))).
  { apply game_inv_set_ball; [exact H1 |].
    rewrite handle_keys_lives. apply H1. }
  destruct (negb (level_complete _)).
  - destruct (game_inv_simulate _ (draw1 i) (draw2 i) H2) as (g' & Hs & Hg').
    rewrite Hs. exists g', r1. split; [reflexivity | exact Hg'].
  - eexists _, r1. split; [reflexivity | exact H2].
Qed.

Lemma game_inv_run (inputs : list Input) :
  forall g, game_inv g -> exists g', run g inputs = Some g' /\ game_inv g'.
Proof.
  induction inputs as [| i rest IH]; intros g H; cbn [run].
  - exists g. split; [reflexivity | exact H].
  - destruct (game_inv_iteration g i H) as (g1 & r1 & Hi & H1).
    rewrite Hi. destruct r1; [apply IH, H1 |].
    exists g1. split; [reflexivity | exact H1].
Qed.

(** X22. Started on the game that [Game.__init__] builds, the main loop
    never fails, whatever the events, keys and random draws: every moving
    platform of the level tables has a known motion kind and keeps it.
    The state it reaches has its level in 1..3 with 3 levels in all, at
    most 2 lives, a score that is not negative, and the 1000 by 600
    window. *)
Theorem main_loop_never_fails (inputs : list Input) :
  exists g,
    run Game.init inputs = Some g /\
    (1 <= current_level g <= 3)%Z /\ max_level g = 3%Z /\
    (Ball.lives (ball g) <= 2)%Z /\ (0 <= score g)%Z /\
    width g = 1000%Z /\ height g = 600%Z /\
    Forall (fun m => valid_move_type (MovingPlatform.move_type m))
           (moving_platforms g).
Proof.
  destruct (game_inv_run inputs Game.init) as (g & Hr & Hg).
  - apply (game_inv_build 1). lia.
  - exists g. split; [exact Hr |].
    unfold game_inv in Hg. tauto.
Qed.

Lemma check_flag_last (r : Rect.t) (g : Game.t) :
  Flag.collected (flag g) = false ->
  Rect.colliderect r (flag_rect (flag g)) = true ->
  (max_level g <= current_level g)%Z ->
  check_flag r g =
    set_camera
      (set_score (set_level_complete (set_flag g (Flag.collect (flag g))) true)
                 (score g + 100)%Z)
      (Camera.add_screen_shake (camera g) 5 30).
Proof.
  intros Hf Hc Hl. unfold check_flag. rewrite Hf, Hc. cbn [negb]. gsimpl.
  replace (current_level g <? max_level g)%Z with false
    by (symmetry; apply Z.ltb_ge; exact Hl).
  reflexivity.
Qed.

Lemma check_collisions_last_flag (g : Game.t) :
  Flag.collected (flag g) = false ->
  Rect.colliderect
    (Ball.bounding_rect (Ball.pos (ball g)) (Ball.radius (ball g)))
    (flag_rect (flag g)) = true ->
  (max_level g <= current_level g)%Z ->
  level_complete (check_collisions g) = true /\
  Flag.collected (flag (check_collisions g)) = true /\
  current_level (check_collisions g) = current_level g /\
  score (check_collisions g) =
    (snd (fst (collect_coins
                 (Ball.bounding_rect (Ball.pos (ball g)) (Ball.radius (ball g)))
                 (coins g) (score g) (camera g))) + 100)%Z /\
  coins (check_collisions g) =
    fst (fst (collect_coins
                (Ball.bounding_rect (Ball.pos (ball g)) (Ball.radius (ball g)))
                (coins g) (score g) (camera g))) /\
  ball (check_collisions g) =
    snd (fst (collect_powerups
                (Ball.bounding_rect (Ball.pos (ball g)) (Ball.radius (ball g)))
                (powerups g) (ball g)
                (snd (collect_coins
                        (Ball.bounding_rect (Ball.pos (ball g)) (Ball.radius (ball g)))
                        (coins g) (score g) (camera g))))).
Proof.
  intros Hf Hc Hl. unfold check_collisions.
  destruct (collect_coins _ (coins g) (score g) (camera g)) as [[cs sc] cam].
  gsimpl. cbn [fst snd].
  destruct (collect_powerups _ (powerups g) (ball g) cam) as [[ps b] cam'].
  rewrite check_flag_last; [| exact Hf | exact Hc | exact Hl].
  repeat split; reflexivity.
Qed.

Lemma check_flag_collected (r : Rect.t) (g : Game.t) :
  Flag.collected (flag g) = true -> check_flag r g = g.
Proof. intros H. unfold check_flag. rewrite H. reflexivity. Qed.

Lemma check_collisions_settled (g : Game.t) :
  Flag.collected (flag g) = true ->
  Forall (fun c => negb (Coin.collected c)
                   && Rect.colliderect
                        (Ball.bounding_rect (Ball.pos (ball g)) (Ball.radius (ball g)))
                        (coin_rect c) = false) (coins g) ->
  score (check_collisions g) = score g.
Proof.
  intros Hf Hcoins. unfold check_collisions.
  rewrite (collect_coins_miss _ (coins g) (score g) (camera g) Hcoins).
  destruct (collect_powerups _ _ _ _) as [[ps b] cam'].
  rewrite check_flag_collected by exact Hf.
  reflexivity.
Qed.

(** X23. On the last level, reaching the flag completes the game instead
    of rebuilding a level: the flag is marked, [level_complete] is set, the
    level counter is kept, the ball is as the power-ups of the frame left
    it, and the score gains the coins of the frame plus 100.  A second
    [check_collisions] on the result pays nothing more. *)
Theorem last_flag_completes_game (g : Game.t) :
  Flag.collected (flag g) = false ->
  Rect.colliderect
    (Ball.bounding_rect (Ball.pos (ball g)) (Ball.radius (ball g)))
    (flag_rect (flag g)) = true ->
  (max_level g <= current_level g)%Z ->
  level_complete (check_collisions g) = true /\
  Flag.collected (flag (check_collisions g)) = true /\
  current_level (check_collisions g) = current_level g /\
  score (check_collisions g) =
    (score g
     + 10 * Z.of_nat
              (List.length
                 (filter (coin_hit (Ball.bounding_rect (Ball.pos (ball g))
                                                       (Ball.radius (ball g))))
                         (coins g)))
     + 100)%Z /\
  ball (check_collisions g) =
    fold_left Ball.apply_powerup
      (map PowerUp.power_type
           (filter (powerup_hit (Ball.bounding_rect (Ball.pos (ball g))
                                                    (Ball.radius (ball g))))
                   (powerups g)))
      (ball g) /\
  score (check_collisions (check_collisions g)) = score (check_collisions g).
Proof.
  intros Hf Hc Hl.
  destruct (check_collisions_last_flag g Hf Hc Hl)
    as (H1 & H2 & H3 & H4 & H5 & H6).
  destruct (collect_coins_spec
              (Ball.bounding_rect (Ball.pos (ball g)) (Ball.radius (ball g)))
              (coins g) (score g) (camera g)) as (Hcs & Hsc & _).
  destruct (collect_powerups_spec
              (Ball.bounding_rect (Ball.pos (ball g)) (Ball.radius (ball g)))
              (powerups g) (ball g)
              (snd (collect_coins
                      (Ball.bounding_rect (Ball.pos (ball g)) (Ball.radius (ball g)))
                      (coins g) (score g) (camera g)))) as (_ & Hb & _).
  rewrite Hsc in H4. rewrite Hcs in H5. rewrite Hb in H6.
  split; [exact H1 |]. split; [exact H2 |]. split; [exact H3 |].
  split; [exact H4 |]. split; [exact H6 |].
  apply check_collisions_settled; [exact H2 |].
  rewrite H5, H6.
  destruct (apply_powerups_lives
              (map PowerUp.power_type
                 (filter (powerup_hit (Ball.bounding_rect (Ball.pos (ball g))
                                                          (Ball.radius (ball g))))
                         (powerups g)))
              (ball g)) as (_ & _ & Hp & Hr).
  rewrite Hp, Hr. apply coins_after_not_hit.
Qed.

Lemma last_flag_completes_game_witness :
  level_complete (check_collisions last_level_at_flag) = true /\
  Flag.collected (flag (check_collisions last_level_at_flag)) = true /\
  current_level (check_collisions last_level_at_flag)
    = current_level last_level_at_flag /\
  score (check_collisions last_level_at_flag) =
    (score last_level_at_flag
     + 10 * Z.of_nat
              (List.length
                 (filter (coin_hit (Ball.bounding_rect
                                      (Ball.pos (ball last_level_at_flag))
                                      (Ball.radius (ball last_level_at_flag))))
                         (coins last_level_at_flag)))
     + 100)%Z /\
  ball (check_collisions last_level_at_flag) =
    fold_left Ball.apply_powerup
      (map PowerUp.power_type
           (filter (powerup_hit (Ball.bounding_rect
                                   (Ball.pos (ball last_level_at_flag))
                                   (Ball.radius (ball last_level_at_flag))))
                   (powerups last_level_at_flag)))
      (ball last_level_at_flag) /\
  score (check_collisions (check_collisions last_level_at_flag))
    = score (check_collisions last_level_at_flag).
Proof.
  apply (last_flag_completes_game last_level_at_flag).
  - reflexivity.
  - unfold last_level_at_flag.
    cbn [ball Game.set_ball Ball.pos Ball.radius Ball.set_pos Ball.init].
    rewrite (bounding_rect_eq _ _ 1835 385 30) by (simpl; lra).
    reflexivity.
  - cbn. lia.
Defined.

End LoopInvariant.
